(** * Structure materializer of Caqil/modular-app (admin.py, web.py)

    The two scripts create a placeholder directory tree from a nested
    dictionary literal.  This development embeds both scripts and the small
    part of the platform they call (pathlib's [/], [Path.mkdir], [open],
    [write], [print]) over an explicit file-system state, and proves the
    properties the specification states about them.

    The development has two parts.

    The first part runs the scripts on a plain platform (POSIX):
    - a file system is a finite map from locations (component lists counted
      from the root directory) to entries, which are directories and regular
      files; there are no symbolic links and no limits on name or path
      length;
    - an entry carries one permission bit (may the process write to it);
      directories are always searchable, and entries created by the process
      are writable by it;
    - a path with an embedded NUL character is rejected with [ValueError];
    - nothing but the script changes the file system while it runs.
    It carries the properties that are about the order of the platform
    calls, the printed line, the two helpers being one, the contract of one
    [mkdir] call and the parent path of every invocation.

    The second part, [Posix], runs the same source text on a fuller
    platform, with symbolic links, search permission, the permissions of
    created entries (umask), limits on names and paths, and [write] failing
    on a text that cannot be encoded.  It carries the properties about what
    the file system holds after a run: they depend on those features. *)

From Stdlib Require Import Ascii String.
From stdpp Require Import base strings list gmap.

Open Scope string_scope.
Open Scope list_scope.

(** ** Python values of the structure literal *)

(** A value of the literal is a string (file content) or a dictionary.  A
    Python [dict] iterates in insertion order, so a dictionary is the
    sequence of its items. *)
Inductive value : Type :=
  | Str (text : string)
  | Dict (d : dict)
with dict : Type :=
  | DNil
  | DCons (name : string) (content : value) (rest : dict).

Scheme value_dict_ind := Induction for value Sort Prop
  with dict_value_ind := Induction for dict Sort Prop.

Fixpoint dict_of (l : list (string * value)) : dict :=
  match l with
  | [] => DNil
  | (k, v) :: l' => DCons k v (dict_of l')
  end.

Fixpoint items (d : dict) : list (string * value) :=
  match d with
  | DNil => []
  | DCons k v rest => (k, v) :: items rest
  end.

Definition keys (d : dict) : list string := (items d).*1.

(** Keys of a Python dictionary are pairwise distinct, at every level. *)
Fixpoint unique_keys (d : dict) : bool :=
  match d with
  | DNil => true
  | DCons k v rest =>
      bool_decide (k ∉ keys rest)
      && match v with Str _ => true | Dict sub => unique_keys sub end
      && unique_keys rest
  end.

(** ** pathlib: pure paths *)

(** A [Path]: whether it is anchored at the root, and its components. *)
Record Path : Type := mkPath { anchored : bool; parts : list string }.

Fixpoint split_sep (s : string) : list string :=
  match s with
  | EmptyString => [EmptyString]
  | String c s' =>
      if Ascii.eqb c "/"%char then EmptyString :: split_sep s'
      else match split_sep s' with
           | [] => [String c EmptyString]
           | h :: t => String c h :: t
           end
  end.

(** Parsing drops empty components and ["."] components. *)
Definition parse_parts (s : string) : list string :=
  List.filter (λ c, negb (String.eqb c "") && negb (String.eqb c ".")) (split_sep s).

Definition is_abs (s : string) : bool :=
  match s with
  | String c _ => Ascii.eqb c "/"%char
  | EmptyString => false
  end.

(** [Path(s)] *)
Definition PathOf (s : string) : Path := mkPath (is_abs s) (parse_parts s).

(** [p / name]: an absolute right operand replaces the left one. *)
Definition truediv (p : Path) (name : string) : Path :=
  if is_abs name then PathOf name
  else mkPath (anchored p) (parts p ++ parse_parts name).

Notation "p // name" := (truediv p name) (at level 40, left associativity).

(** [str(p)] *)
Definition path_str (p : Path) : string :=
  match parts p with
  | [] => if anchored p then "/" else "."
  | _ => (if anchored p then "/" else "") +:+ String.concat "/" (parts p)
  end.

Fixpoint has_nul_char (s : string) : bool :=
  match s with
  | EmptyString => false
  | String c s' => Ascii.eqb c Ascii.zero || has_nul_char s'
  end.

Definition has_nul (p : Path) : bool := existsb has_nul_char (parts p).

(** A name that is one path component: not empty, no separator, no NUL,
    and neither ["."] nor [".."]. *)
Fixpoint has_sep (s : string) : bool :=
  match s with
  | EmptyString => false
  | String c s' => Ascii.eqb c "/"%char || has_sep s'
  end.

Definition plain_name (s : string) : bool :=
  negb (String.eqb s "") && negb (String.eqb s ".") && negb (String.eqb s "..")
  && negb (has_sep s) && negb (has_nul_char s).

Fixpoint plain_names (d : dict) : bool :=
  match d with
  | DNil => true
  | DCons k v rest =>
      plain_name k
      && match v with Str _ => true | Dict sub => plain_names sub end
      && plain_names rest
  end.

(** ** The file system *)

Inductive entry : Type :=
  | EDir (writable : bool)
  | EFile (writable : bool) (data : string).

Inductive Exception : Type :=
  | FileNotFoundError
  | FileExistsError
  | NotADirectoryError
  | IsADirectoryError
  | PermissionError
  | ValueError.

Global Instance Exception_eq_dec : EqDecision Exception.
Proof. solve_decision. Defined.

Global Instance entry_eq_dec : EqDecision entry.
Proof. solve_decision. Defined.

(** Every exception above except [ValueError] is an [OSError]. *)
Definition is_OSError (e : Exception) : bool :=
  match e with ValueError => false | _ => true end.

(** What the process did, in order: the calls it made to the platform. *)
Inductive event : Type :=
  | EvMkdir (p : Path) (parents exist_ok : bool)
  | EvOpen (p : Path)
  | EvWrite (text : string)
  | EvPrint (line : string).

Record world : Type := World {
  fs : gmap (list string) entry;
  cwd : list string;
  trace : list event
}.

(** State and exception monad: the state survives an exception. *)
Definition SE (S A : Type) : Type := S → (Exception + A) * S.

Global Instance SE_ret {S} : MRet (SE S) := λ A a s, (inr a, s).
Global Instance SE_bind {S} : MBind (SE S) := λ A B k c s,
  match c s with
  | (inl e, s') => (inl e, s')
  | (inr a, s') => k a s'
  end.

Definition M : Type → Type := SE world.

(** *** Path resolution *)

Definition step (cur : list string) (c : string) : list string :=
  if decide (c = "..") then removelast cur else cur ++ [c].

(** Walk the components from [cur]; every directory that is searched must
    exist and be a directory.  The last component need not exist. *)
Fixpoint walk (m : gmap (list string) entry) (cur cs : list string)
  : Exception + list string :=
  match cs with
  | [] => inr cur
  | c :: rest =>
      match m !! cur with
      | Some (EDir _) => walk m (step cur c) rest
      | Some (EFile _ _) => inl NotADirectoryError
      | None => inl FileNotFoundError
      end
  end.

Definition locate (wd : list string) (p : Path) (m : gmap (list string) entry)
  : Exception + list string :=
  if has_nul p then inl ValueError
  else walk m (if anchored p then [] else wd) (parts p).

(** May a new entry be made at location [l]? *)
Definition may_create (m : gmap (list string) entry) (l : list string)
  : Exception + unit :=
  match m !! removelast l with
  | Some (EDir true) => inr tt
  | Some (EDir false) => inl PermissionError
  | Some (EFile _ _) => inl NotADirectoryError
  | None => inl FileNotFoundError
  end.

(** *** System calls and pathlib methods on the file system *)

(** [os.mkdir(p)] *)
Definition os_mkdir (wd : list string) (p : Path) : SE (gmap (list string) entry) unit :=
  λ m,
  match locate wd p m with
  | inl e => (inl e, m)
  | inr l =>
      match m !! l with
      | Some _ => (inl FileExistsError, m)
      | None =>
          match may_create m l with
          | inl e => (inl e, m)
          | inr _ => (inr tt, <[l := EDir true]> m)
          end
      end
  end.

(** [p.is_dir()] *)
Definition is_dir (wd : list string) (p : Path) (m : gmap (list string) entry) : bool :=
  match locate wd p m with
  | inr l => match m !! l with Some (EDir _) => true | _ => false end
  | inl _ => false
  end.

(** [Path.mkdir(parents=False, exist_ok)]:
<<
    try: os.mkdir(self, mode)
    except FileNotFoundError: raise            # parents is False
    except OSError:
        if not exist_ok or not self.is_dir(): raise
>> *)
Definition mkdir_here (exist_ok : bool) (wd : list string) (p : Path)
  : SE (gmap (list string) entry) unit :=
  λ m,
  match os_mkdir wd p m with
  | (inl e, m') =>
      if decide (e = FileNotFoundError) then (inl e, m')
      else if is_OSError e && exist_ok && is_dir wd p m' then (inr tt, m')
      else (inl e, m')
  | ok => ok
  end.

(** [Path.mkdir(parents=True, exist_ok)], by recursion on the reversed
    components ([self.parent] drops the last one):
<<
    try: os.mkdir(self, mode)
    except FileNotFoundError:
        if not parents or self.parent == self: raise
        self.parent.mkdir(parents=True, exist_ok=True)
        self.mkdir(mode, parents=False, exist_ok=exist_ok)
    except OSError:
        if not exist_ok or not self.is_dir(): raise
>> *)
Fixpoint mkdir_up (exist_ok : bool) (wd : list string) (a : bool) (rparts : list string)
  : SE (gmap (list string) entry) unit :=
  λ m,
  let self := mkPath a (rev rparts) in
  match os_mkdir wd self m with
  | (inl e, m') =>
      if decide (e = FileNotFoundError) then
        match rparts with
        | [] => (inl e, m')
        | _ :: up =>
            match mkdir_up true wd a up m' with
            | (inl e', m'') => (inl e', m'')
            | (inr _, m'') => mkdir_here exist_ok wd self m''
            end
        end
      else if is_OSError e && exist_ok && is_dir wd self m' then (inr tt, m')
      else (inl e, m')
  | ok => ok
  end.

Definition mkdir_fs (parents exist_ok : bool) (wd : list string) (p : Path)
  : SE (gmap (list string) entry) unit :=
  if parents then mkdir_up exist_ok wd (anchored p) (rev (parts p))
  else mkdir_here exist_ok wd p.

(** [open(p, "w")]: the file is created or truncated; the handle is the
    location of the open file. *)
Definition open_w_fs (wd : list string) (p : Path)
  : SE (gmap (list string) entry) (list string) :=
  λ m,
  match locate wd p m with
  | inl e => (inl e, m)
  | inr l =>
      match m !! l with
      | Some (EDir _) => (inl IsADirectoryError, m)
      | Some (EFile false _) => (inl PermissionError, m)
      | Some (EFile true _) => (inr l, <[l := EFile true ""]> m)
      | None =>
          match may_create m l with
          | inl e => (inl e, m)
          | inr _ => (inr l, <[l := EFile true ""]> m)
          end
      end
  end.

(** [f.write(text)] on a handle opened for writing: the text is appended at
    the end of the file. *)
Definition write_fs (f : list string) (text : string)
  : SE (gmap (list string) entry) unit :=
  λ m,
  match m !! f with
  | Some (EFile w data) => (inr tt, <[f := EFile w (data +:+ text)]> m)
  | _ => (inr tt, m)
  end.

(** *** The calls as the scripts make them: each one is recorded *)

Definition call {A} (ev : event) (c : list string → SE (gmap (list string) entry) A) : M A :=
  λ w,
  let '(r, m) := c (cwd w) (fs w) in
  (r, World m (cwd w) (trace w ++ [ev])).

Definition Path_mkdir (p : Path) (parents exist_ok : bool) : M unit :=
  call (EvMkdir p parents exist_ok) (λ wd, mkdir_fs parents exist_ok wd p).

Definition open_w (p : Path) : M (list string) :=
  call (EvOpen p) (λ wd, open_w_fs wd p).

Definition f_write (f : list string) (text : string) : M unit :=
  call (EvWrite text) (λ _, write_fs f text).

Definition print (line : string) : M unit :=
  λ w, (inr tt, World (fs w) (cwd w) (trace w ++ [EvPrint line])).

(** ** The scripts *)

Module Admin.

(** [base_dir = Path("apps/admin")] *)
Definition base_dir : Path := PathOf "apps/admin".

(** The [structure] literal of admin.py, lines 10-218. *)
Definition structure : dict :=
  dict_of [
      (".env.example", Str "");
      (".env.local", Str "");
      (".eslintrc.js", Str "");
      (".gitignore", Str "");
      ("next.config.js", Str "");
      ("package.json", Str "");
      ("postcss.config.js", Str "");
      ("tailwind.config.js", Str "");
      ("tsconfig.json", Str "");
      ("middleware.ts", Str "");
      ("public", Dict (dict_of [
        ("favicon.ico", Str "");
        ("admin-logo.svg", Str "");
        ("images", Dict (dict_of [
          ("avatar-placeholder.png", Str "");
          ("admin-bg.jpg", Str "")]))]));
      ("src", Dict (dict_of [
        ("app", Dict (dict_of [
          ("globals.css", Str "");
          ("layout.tsx", Str "");
          ("loading.tsx", Str "");
          ("not-found.tsx", Str "");
          ("page.tsx", Str "");
          ("auth", Dict (dict_of [
            ("login", Dict (dict_of [
              ("page.tsx", Str "")]));
            ("layout.tsx", Str "");
            ("forgot-password", Dict (dict_of [
              ("page.tsx", Str "")]))]));
          ("dashboard", Dict (dict_of [
            ("page.tsx", Str "");
            ("loading.tsx", Str "");
            ("error.tsx", Str "")]));
          ("content", Dict (dict_of [
            ("page.tsx", Str "");
            ("layout.tsx", Str "");
            ("posts", Dict (dict_of [
              ("page.tsx", Str "");
              ("new", Dict (dict_of [
                ("page.tsx", Str "")]));
              ("[id]", Dict (dict_of [
                ("page.tsx", Str "");
                ("edit", Dict (dict_of [
                  ("page.tsx", Str "")]))]))]));
            ("pages", Dict (dict_of [
              ("page.tsx", Str "");
              ("new", Dict (dict_of [
                ("page.tsx", Str "")]));
              ("[id]", Dict (dict_of [
                ("page.tsx", Str "");
                ("edit", Dict (dict_of [
                  ("page.tsx", Str "")]))]))]));
            ("media", Dict (dict_of [
              ("page.tsx", Str "");
              ("upload", Dict (dict_of [
                ("page.tsx", Str "")]))]));
            ("categories", Dict (dict_of [
              ("page.tsx", Str "");
              ("new", Dict (dict_of [
                ("page.tsx", Str "")]))]))]));
          ("plugins", Dict (dict_of [
            ("page.tsx", Str "");
            ("layout.tsx", Str "");
            ("marketplace", Dict (dict_of [
              ("page.tsx", Str "")]));
            ("installed", Dict (dict_of [
              ("page.tsx", Str "")]));
            ("[slug]", Dict (dict_of [
              ("page.tsx", Str "");
              ("settings", Dict (dict_of [
                ("page.tsx", Str "")]))]))]));
          ("users", Dict (dict_of [
            ("page.tsx", Str "");
            ("layout.tsx", Str "");
            ("new", Dict (dict_of [
              ("page.tsx", Str "")]));
            ("roles", Dict (dict_of [
              ("page.tsx", Str "");
              ("[id]", Dict (dict_of [
                ("page.tsx", Str "")]))]));
            ("[id]", Dict (dict_of [
              ("page.tsx", Str "");
              ("edit", Dict (dict_of [
                ("page.tsx", Str "")]))]))]));
          ("settings", Dict (dict_of [
            ("page.tsx", Str "");
            ("layout.tsx", Str "");
            ("general", Dict (dict_of [
              ("page.tsx", Str "")]));
            ("security", Dict (dict_of [
              ("page.tsx", Str "")]));
            ("email", Dict (dict_of [
              ("page.tsx", Str "")]));
            ("performance", Dict (dict_of [
              ("page.tsx", Str "")]))]));
          ("api", Dict (dict_of [
            ("auth", Dict (dict_of [
              ("login", Dict (dict_of [
                ("route.ts", Str "")]));
              ("me", Dict (dict_of [
                ("route.ts", Str "")]))]));
            ("content", Dict (dict_of [
              ("posts", Dict (dict_of [
                ("route.ts", Str "");
                ("[id]", Dict (dict_of [
                  ("route.ts", Str "")]))]));
              ("pages", Dict (dict_of [
                ("route.ts", Str "");
                ("[id]", Dict (dict_of [
                  ("route.ts", Str "")]))]));
              ("media", Dict (dict_of [
                ("route.ts", Str "");
                ("upload", Dict (dict_of [
                  ("route.ts", Str "")]));
                ("[id]", Dict (dict_of [
                  ("route.ts", Str "")]))]))]));
            ("plugins", Dict (dict_of [
              ("route.ts", Str "");
              ("install", Dict (dict_of [
                ("route.ts", Str "")]));
              ("[slug]", Dict (dict_of [
                ("route.ts", Str "");
                ("activate", Dict (dict_of [
                  ("route.ts", Str "")]));
                ("deactivate", Dict (dict_of [
                  ("route.ts", Str "")]));
                ("configure", Dict (dict_of [
                  ("route.ts", Str "")]));
                ("uninstall", Dict (dict_of [
                  ("route.ts", Str "")]))]))]));
            ("users", Dict (dict_of [
              ("route.ts", Str "");
              ("[id]", Dict (dict_of [
                ("route.ts", Str "");
                ("roles", Dict (dict_of [
                  ("route.ts", Str "")]));
                ("permissions", Dict (dict_of [
                  ("route.ts", Str "")]))]))]));
            ("settings", Dict (dict_of [
              ("route.ts", Str "");
              ("general", Dict (dict_of [
                ("route.ts", Str "")]));
              ("security", Dict (dict_of [
                ("route.ts", Str "")]));
              ("email", Dict (dict_of [
                ("route.ts", Str "")]))]))]))]));
        ("components", Dict (dict_of [
          ("layout", Dict (dict_of [
            ("admin-header.tsx", Str "");
            ("admin-sidebar.tsx", Str "");
            ("breadcrumbs.tsx", Str "");
            ("mobile-nav.tsx", Str "");
            ("user-nav.tsx", Str "")]));
          ("dashboard", Dict (dict_of [
            ("stats-cards.tsx", Str "");
            ("recent-activity.tsx", Str "");
            ("plugin-status.tsx", Str "");
            ("system-health.tsx", Str "");
            ("quick-actions.tsx", Str "")]));
          ("content", Dict (dict_of [
            ("content-table.tsx", Str "");
            ("content-form.tsx", Str "");
            ("rich-text-editor.tsx", Str "");
            ("media-library.tsx", Str "");
            ("media-upload.tsx", Str "");
            ("content-filters.tsx", Str "")]));
          ("plugins", Dict (dict_of [
            ("plugin-card.tsx", Str "");
            ("plugin-table.tsx", Str "");
            ("plugin-install-dialog.tsx", Str "");
            ("plugin-settings-form.tsx", Str "");
            ("plugin-marketplace.tsx", Str "")]));
          ("users", Dict (dict_of [
            ("user-table.tsx", Str "");
            ("user-form.tsx", Str "");
            ("role-form.tsx", Str "");
            ("permissions-form.tsx", Str "");
            ("user-filters.tsx", Str "")]));
          ("settings", Dict (dict_of [
            ("settings-form.tsx", Str "");
            ("security-settings.tsx", Str "");
            ("email-settings.tsx", Str "");
            ("performance-settings.tsx", Str "")]));
          ("common", Dict (dict_of [
            ("data-table.tsx", Str "");
            ("loading-spinner.tsx", Str "");
            ("empty-state.tsx", Str "");
            ("error-boundary.tsx", Str "");
            ("confirmation-dialog.tsx", Str "");
            ("search-input.tsx", Str "")]))]));
        ("hooks", Dict (dict_of [
          ("use-auth.ts", Str "");
          ("use-plugins.ts", Str "");
          ("use-content.ts", Str "");
          ("use-users.ts", Str "");
          ("use-settings.ts", Str "");
          ("use-toast.ts", Str "");
          ("use-local-storage.ts", Str "")]));
        ("lib", Dict (dict_of [
          ("auth.ts", Str "");
          ("api.ts", Str "");
          ("database.ts", Str "");
          ("plugins.ts", Str "");
          ("utils.ts", Str "");
          ("validations.ts", Str "");
          ("constants.ts", Str "");
          ("middleware.ts", Str "")]));
        ("providers", Dict (dict_of [
          ("auth-provider.tsx", Str "");
          ("plugin-provider.tsx", Str "");
          ("toast-provider.tsx", Str "");
          ("query-provider.tsx", Str "")]));
        ("styles", Dict (dict_of [
          ("globals.css", Str "");
          ("components.css", Str "");
          ("admin.css", Str "")]));
        ("types", Dict (dict_of [
          ("auth.ts", Str "");
          ("content.ts", Str "");
          ("plugins.ts", Str "");
          ("users.ts", Str "");
          ("settings.ts", Str "");
          ("api.ts", Str "")]))]))].

(** [def create_files_and_dirs(parent_path, items)] of admin.py *)
Fixpoint create_files_and_dirs (parent_path : Path) (items : dict) : M unit :=
  match items with
  | DNil => mret tt
  | DCons name content rest =>
      let current_path := parent_path // name in
      match content with
      | Dict sub =>
          Path_mkdir current_path false true;;
          create_files_and_dirs current_path sub
      | Str text =>
          f ← open_w current_path;
          f_write f text
      end;;
      create_files_and_dirs parent_path rest
  end.

(** [def create_structure()] of admin.py *)
Definition create_structure : M unit :=
  Path_mkdir base_dir true true;;
  create_files_and_dirs base_dir structure;;
  print ("Directory structure created successfully at " +:+ path_str base_dir).

End Admin.

Module Web.

(** [base_dir = Path("apps/web")] *)
Definition base_dir : Path := PathOf "apps/web".

(** The [structure] literal of web.py, lines 10-134. *)
Definition structure : dict :=
  dict_of [
      (".env.example", Str "");
      (".env.local", Str "");
      (".eslintrc.js", Str "");
      (".gitignore", Str "");
      ("next.config.js", Str "");
      ("package.json", Str "");
      ("postcss.config.js", Str "");
      ("tailwind.config.js", Str "");
      ("tsconfig.json", Str "");
      ("middleware.ts", Str "");
      ("public", Dict (dict_of [
        ("favicon.ico", Str "");
        ("logo.svg", Str "");
        ("og-image.png", Str "");
        ("images", Dict (dict_of [
          ("hero-bg.jpg", Str "");
          ("placeholder.png", Str "")]))]));
      ("src", Dict (dict_of [
        ("app", Dict (dict_of [
          ("globals.css", Str "");
          ("layout.tsx", Str "");
          ("loading.tsx", Str "");
          ("not-found.tsx", Str "");
          ("page.tsx", Str "");
          ("about", Dict (dict_of [
            ("page.tsx", Str "")]));
          ("contact", Dict (dict_of [
            ("page.tsx", Str "")]));
          ("blog", Dict (dict_of [
            ("page.tsx", Str "");
            ("[slug]", Dict (dict_of [
              ("page.tsx", Str "")]));
            ("category", Dict (dict_of [
              ("[category]", Dict (dict_of [
                ("page.tsx", Str "")]))]))]));
          ("auth", Dict (dict_of [
            ("login", Dict (dict_of [
              ("page.tsx", Str "")]));
            ("register", Dict (dict_of [
              ("page.tsx", Str "")]));
            ("forgot-password", Dict (dict_of [
              ("page.tsx", Str "")]))]));
          ("account", Dict (dict_of [
            ("page.tsx", Str "");
            ("profile", Dict (dict_of [
              ("page.tsx", Str "")]));
            ("settings", Dict (dict_of [
              ("page.tsx", Str "")]))]));
          ("api", Dict (dict_of [
            ("auth", Dict (dict_of [
              ("login", Dict (dict_of [
                ("route.ts", Str "")]));
              ("register", Dict (dict_of [
                ("route.ts", Str "")]));
              ("me", Dict (dict_of [
                ("route.ts", Str "")]))]));
            ("content", Dict (dict_of [
              ("posts", Dict (dict_of [
                ("route.ts", Str "");
                ("[slug]", Dict (dict_of [
                  ("route.ts", Str "")]))]));
              ("pages", Dict (dict_of [
                ("route.ts", Str "");
                ("[slug]", Dict (dict_of [
                  ("route.ts", Str "")]))]))]));
            ("contact", Dict (dict_of [
              ("route.ts", Str "")]));
            ("plugins", Dict (dict_of [
              ("[plugin]", Dict (dict_of [
                ("[...path]", Dict (dict_of [
                  ("route.ts", Str "")]))]))]))]))]));
        ("components", Dict (dict_of [
          ("layout", Dict (dict_of [
            ("header.tsx", Str "");
            ("footer.tsx", Str "");
            ("navigation.tsx", Str "");
            ("mobile-nav.tsx", Str "")]));
          ("sections", Dict (dict_of [
            ("hero.tsx", Str "");
            ("features.tsx", Str "");
            ("blog-preview.tsx", Str "")]));
          ("blog", Dict (dict_of [
            ("post-card.tsx", Str "");
            ("post-content.tsx", Str "");
            ("category-filter.tsx", Str "")]));
          ("auth", Dict (dict_of [
            ("login-form.tsx", Str "");
            ("register-form.tsx", Str "");
            ("auth-guard.tsx", Str "")]));
          ("forms", Dict (dict_of [
            ("contact-form.tsx", Str "")]));
          ("plugins", Dict (dict_of [
            ("plugin-renderer.tsx", Str "")]));
          ("common", Dict (dict_of [
            ("seo.tsx", Str "");
            ("breadcrumbs.tsx", Str "");
            ("pagination.tsx", Str "");
            ("loading-spinner.tsx", Str "")]))]));
        ("hooks", Dict (dict_of [
          ("use-auth.ts", Str "");
          ("use-posts.ts", Str "");
          ("use-plugins.ts", Str "");
          ("use-local-storage.ts", Str "")]));
        ("lib", Dict (dict_of [
          ("auth.ts", Str "");
          ("api.ts", Str "");
          ("utils.ts", Str "");
          ("validations.ts", Str "");
          ("constants.ts", Str "");
          ("seo.ts", Str "");
          ("plugins.ts", Str "")]));
        ("providers", Dict (dict_of [
          ("auth-provider.tsx", Str "");
          ("plugin-provider.tsx", Str "");
          ("toast-provider.tsx", Str "")]));
        ("styles", Dict (dict_of [
          ("globals.css", Str "");
          ("components.css", Str "")]));
        ("types", Dict (dict_of [
          ("auth.ts", Str "");
          ("content.ts", Str "");
          ("plugins.ts", Str "");
          ("api.ts", Str "")]))]))].

(** [def create_files_and_dirs(parent_path, items)] of web.py *)
Fixpoint create_files_and_dirs (parent_path : Path) (items : dict) : M unit :=
  match items with
  | DNil => mret tt
  | DCons name content rest =>
      let current_path := parent_path // name in
      match content with
      | Dict sub =>
          Path_mkdir current_path false true;;
          create_files_and_dirs current_path sub
      | Str text =>
          f ← open_w current_path;
          f_write f text
      end;;
      create_files_and_dirs parent_path rest
  end.

(** [def create_structure()] of web.py *)
Definition create_structure : M unit :=
  Path_mkdir base_dir true true;;
  create_files_and_dirs base_dir structure;;
  print ("Directory structure created successfully at " +:+ path_str base_dir).

End Web.

(** The two scripts, to state a property of both at once. *)
Inductive script : Type := admin | web.

Definition base_dir (s : script) : Path :=
  match s with admin => Admin.base_dir | web => Web.base_dir end.

Definition structure (s : script) : dict :=
  match s with admin => Admin.structure | web => Web.structure end.

Definition create_files_and_dirs (s : script) : Path → dict → M unit :=
  match s with
  | admin => Admin.create_files_and_dirs
  | web => Web.create_files_and_dirs
  end.

Definition create_structure (s : script) : M unit :=
  match s with
  | admin => Admin.create_structure
  | web => Web.create_structure
  end.

(** ** Vocabulary of the properties *)

(** The kind of an entry: what it is and its permission bit, not its data. *)
Definition kind (e : entry) : entry :=
  match e with
  | EDir w => EDir w
  | EFile w _ => EFile w ""
  end.

Definition shape (m : gmap (list string) entry) : gmap (list string) entry :=
  kind <$> m.

(** [grows m m']: every entry of [m] is in [m'] with its kind; entries may
    have been added and file data may have changed. *)
Definition grows (m m' : gmap (list string) entry) : Prop :=
  shape m ⊆ shape m'.

(** The operation the helper performs for one entry of a dictionary. *)
Inductive op : Type :=
  | OpMkdir (p : Path)
  | OpWriteFile (p : Path) (text : string).

Definition op_path (o : op) : Path :=
  match o with OpMkdir p => p | OpWriteFile p _ => p end.

Definition op_fs (wd : list string) (o : op) : SE (gmap (list string) entry) unit :=
  match o with
  | OpMkdir p => mkdir_fs false true wd p
  | OpWriteFile p text => f ← open_w_fs wd p; write_fs f text
  end.

Definition do_op (o : op) : M unit :=
  match o with
  | OpMkdir p => Path_mkdir p false true
  | OpWriteFile p text => f ← open_w p; f_write f text
  end.

(** Run operations in sequence; the first exception ends the run. *)
Fixpoint exec (l : list op) : M unit :=
  match l with
  | [] => mret tt
  | o :: l' => do_op o;; exec l'
  end.

Fixpoint exec_fs (wd : list string) (l : list op) : SE (gmap (list string) entry) unit :=
  match l with
  | [] => mret tt
  | o :: l' => op_fs wd o;; exec_fs wd l'
  end.

(** The order of the specification: the entries of a mapping in insertion
    order, the whole subtree of a directory entry before its next sibling. *)
Fixpoint walk_order (P : Path) (T : dict) : list op :=
  match T with
  | DNil => []
  | DCons name (Str text) rest => OpWriteFile (P // name) text :: walk_order P rest
  | DCons name (Dict sub) rest =>
      OpMkdir (P // name) :: walk_order (P // name) sub ++ walk_order P rest
  end.


(** The platform calls an operation makes when none of them fails. *)
Definition op_events (o : op) : list event :=
  match o with
  | OpMkdir p => [EvMkdir p false true]
  | OpWriteFile p text => [EvOpen p; EvWrite text]
  end.

(** The calls made for an operation whose result was [r]: when [open]
    fails there is no [write]. *)
Definition attempted (o : op) (r : Exception + unit) : list event :=
  match o, r with
  | OpWriteFile p _, inl _ => [EvOpen p]
  | _, _ => op_events o
  end.

(** The calls made by a run of [l] from [m], up to its first failure. *)
Fixpoint run_events (wd : list string) (l : list op) (m : gmap (list string) entry)
  : list event :=
  match l with
  | [] => []
  | o :: l' =>
      match op_fs wd o m with
      | (inl e, _) => attempted o (inl e)
      | (inr _, m') => op_events o ++ run_events wd l' m'
      end
  end.

(** The paths of all entries of [T] under [P], recursively. *)
Definition entry_paths (P : Path) (T : dict) : list Path :=
  op_path <$> walk_order P T.

(** [P] followed by further components. *)
Definition extend (P : Path) (ks : list string) : Path :=
  mkPath (anchored P) (parts P ++ ks).

(** The body the two scripts share, over a base path and a tree. *)
Definition scaffold (base : string) (tree : dict) : M unit :=
  let base_dir := PathOf base in
  Path_mkdir base_dir true true;;
  Admin.create_files_and_dirs base_dir tree;;
  print ("Directory structure created successfully at " +:+ path_str base_dir).

(** ** Concrete file systems and trees for the examples *)

(** A root directory holding a directory [/srv]; the process runs in [/srv]. *)
Definition srv_fs : gmap (list string) entry :=
  <[ ["srv"] := EDir true ]> {[ [] := EDir true ]}.

(** The same with an empty writable directory [/srv/out]. *)
Definition out_fs : gmap (list string) entry :=
  <[ ["srv"; "out"] := EDir true ]> srv_fs.

Definition in_srv (m : gmap (list string) entry) : world := World m ["srv"] [].

(** The tree of the specification's example. *)
Definition example_tree : dict :=
  dict_of [("a.txt", Str "hi"); ("b", Dict (dict_of [("c.txt", Str "")]))].



(** ** Vocabulary of the further properties *)

(** [p.is_file()]: a regular file stands at [p]. *)
Definition is_file (wd : list string) (p : Path) (m : gmap (list string) entry) : bool :=
  match locate wd p m with
  | inr l => match m !! l with Some (EFile _ _) => true | _ => false end
  | inl _ => false
  end.



(** The locations of the string keys of a tree of plain names below the
    location [base], each with its string. *)
Fixpoint files_of (base : list string) (T : dict) : list (list string * string) :=
  match T with
  | DNil => []
  | DCons name (Str text) rest => (base ++ [name], text) :: files_of base rest
  | DCons name (Dict sub) rest => files_of (base ++ [name]) sub ++ files_of base rest
  end.

(** Is every string of the tree empty? *)
Fixpoint leaves_empty (T : dict) : bool :=
  match T with
  | DNil => true
  | DCons _ (Str text) rest => bool_decide (text = "") && leaves_empty rest
  | DCons _ (Dict sub) rest => leaves_empty sub && leaves_empty rest
  end.

(** The items of [T1] followed by the items of [T2]. *)
Fixpoint dict_app (T1 T2 : dict) : dict :=
  match T1 with
  | DNil => T2
  | DCons name content rest => DCons name content (dict_app rest T2)
  end.

(** ** Basic facts: kinds and growth *)

(** ** The model on small inputs *)

Example truediv_component :
  PathOf "apps/admin" // "src" = mkPath false ["apps"; "admin"; "src"].
Proof. reflexivity. Qed.

Example truediv_nested_name :
  PathOf "out" // "a/x" = PathOf "out" // "a" // "x".
Proof. reflexivity. Qed.

Example truediv_absolute_name : PathOf "out" // "/etc" = mkPath true ["etc"].
Proof. reflexivity. Qed.

Example truediv_empty_name : PathOf "out" // "" = PathOf "out".
Proof. reflexivity. Qed.

Example parse_drops_dot_and_empty :
  PathOf "/a//b/./c/" = mkPath true ["a"; "b"; "c"]
  ∧ PathOf "a/../b" = mkPath false ["a"; ".."; "b"].
Proof. split; reflexivity. Qed.

Example path_str_base_dir :
  path_str Admin.base_dir = "apps/admin" ∧ path_str Web.base_dir = "apps/web".
Proof. split; reflexivity. Qed.

(** [mkdir] on a directory that exists, on a regular file, and below a
    directory that is missing. *)
Example mkdir_here_cases :
  mkdir_here true ["srv"] (PathOf "out") out_fs = (inr tt, out_fs)
  ∧ mkdir_here true ["srv"] (PathOf "f")
      (<[ ["srv"; "f"] := EFile true "" ]> srv_fs)
    = (inl FileExistsError, <[ ["srv"; "f"] := EFile true "" ]> srv_fs)
  ∧ mkdir_here true ["srv"] (PathOf "x/y") srv_fs = (inl FileNotFoundError, srv_fs)
  ∧ (mkdir_fs true true ["srv"] (PathOf "x/y") srv_fs).1 = inr tt.
Proof. by vm_compute. Qed.

(** The whole of admin.py and of web.py, run in an empty directory. *)
Example scripts_run_in_empty_directory :
  (let '(r, w1) := Admin.create_structure (in_srv srv_fs) in
   r = inr tt ∧ size (fs w1) = 227
   ∧ fs w1 !! ["srv"; "apps"; "admin"; "src"; "app"; "api"; "content";
               "posts"; "[id]"; "route.ts"] = Some (EFile true ""))
  ∧ (let '(r, w1) := Web.create_structure (in_srv srv_fs) in
     r = inr tt ∧ size (fs w1) = 127
     ∧ fs w1 !! ["srv"; "apps"; "web"; "src"; "types"; "api.ts"]
       = Some (EFile true "")).
Proof. by vm_compute. Qed.

(** Induction on a dictionary: the hypothesis holds for the dictionary
    inside the first value, when that value is one, and for the items
    after it. *)
Lemma dict_content_ind (Q : dict → Prop) :
  Q DNil →
  (∀ name content rest,
     match content with Str _ => True | Dict sub => Q sub end →
     Q rest → Q (DCons name content rest)) →
  ∀ T, Q T.
Proof.
  intros Hnil Hcons.
  induction T as [text|d IHd| |name content IHT rest IHrest] using dict_value_ind
    with (P := λ v, match v with Str _ => True | Dict d => Q d end); auto.
Qed.

Lemma shape_lookup m l : shape m !! l = kind <$> m !! l.
Proof. apply lookup_fmap. Qed.

Lemma grows_lookup m m' l e :
  grows m m' → m !! l = Some e → ∃ e', m' !! l = Some e' ∧ kind e' = kind e.
Proof.
  intros Hg Hl.
  assert (Hs : shape m !! l = Some (kind e)) by (by rewrite shape_lookup, Hl).
  eapply lookup_weaken in Hs; [|exact Hg].
  rewrite shape_lookup in Hs.
  destruct (m' !! l) as [e'|]; simplify_eq/=. eauto.
Qed.

Lemma grows_dir m m' l w :
  grows m m' → m !! l = Some (EDir w) → m' !! l = Some (EDir w).
Proof.
  intros Hg Hl. destruct (grows_lookup _ _ _ _ Hg Hl) as ([]&?&?); by simplify_eq/=.
Qed.




Lemma grows_insert_fresh m l e : m !! l = None → grows m (<[l := e]> m).
Proof.
  intros Hl. unfold grows, shape. rewrite fmap_insert.
  apply insert_subseteq. by rewrite lookup_fmap, Hl.
Qed.



(** ** Path resolution is stable when the file system grows *)

Lemma walk_mono m m' cs : ∀ cur l,
  grows m m' → walk m cur cs = inr l → walk m' cur cs = inr l.
Proof.
  induction cs as [|c cs IH]; intros cur l Hg; simpl; [done|].
  destruct (m !! cur) as [[w|w d]|] eqn:Hc; try done.
  rewrite (grows_dir _ _ _ _ Hg Hc). by apply IH.
Qed.

Lemma locate_mono wd p m m' l :
  grows m m' → locate wd p m = inr l → locate wd p m' = inr l.
Proof.
  unfold locate. destruct (has_nul p); [done|]. apply walk_mono.
Qed.

(** ** The two operations in closed form *)

Lemma mkdir_here_eq wd p m :
  mkdir_here true wd p m =
  match locate wd p m with
  | inl e => (inl e, m)
  | inr l =>
      match m !! l with
      | Some (EDir _) => (inr tt, m)
      | Some (EFile _ _) => (inl FileExistsError, m)
      | None =>
          match may_create m l with
          | inl e => (inl e, m)
          | inr _ => (inr tt, <[l := EDir true]> m)
          end
      end
  end.
Proof.
  unfold mkdir_here, os_mkdir, is_dir.
  destruct (locate wd p m) as [e|l] eqn:Hloc.
  - rewrite Hloc. destruct e; simpl; done.
  - destruct (m !! l) as [[w|w d]|] eqn:Hl.
    + simpl. by rewrite Hloc, Hl.
    + simpl. by rewrite Hloc, Hl.
    + destruct (may_create m l) as [e|[]] eqn:Hc; [|done].
      rewrite Hloc, Hl. destruct e; simpl; done.
Qed.






(** ** The recorded run and the run on the file system *)

Lemma do_op_eq o w :
  do_op o w =
  let '(r, m) := op_fs (cwd w) o (fs w) in
  (r, World m (cwd w) (trace w ++ attempted o r)).
Proof.
  destruct o as [p|p text]; simpl.
  - reflexivity.
  - unfold mbind, SE_bind, open_w, f_write, call.
    destruct (open_w_fs (cwd w) p (fs w)) as [[e|f] m1]; simpl; [done|].
    destruct (write_fs f text m1) as [[e|[]] m2] eqn:Hw; simpl.
    + unfold write_fs in Hw. by destruct (m1 !! f) as [[]|].
    + by rewrite <- app_assoc.
Qed.

Lemma exec_eq l : ∀ w,
  exec l w =
  let '(r, m) := exec_fs (cwd w) l (fs w) in
  (r, World m (cwd w) (trace w ++ run_events (cwd w) l (fs w))).
Proof.
  induction l as [|o l IH]; intros [m wd tr]; simpl.
  - unfold mret, SE_ret. by rewrite app_nil_r.
  - unfold mbind, SE_bind. rewrite do_op_eq. simpl.
    destruct (op_fs wd o m) as [[e|[]] m1]; [done|].
    rewrite IH. simpl. destruct (exec_fs wd l m1) as [r m2].
    rewrite <- app_assoc. by destruct o.
Qed.

Lemma exec_app l1 l2 w : exec (l1 ++ l2) w = (exec l1;; exec l2) w.
Proof.
  revert w. induction l1 as [|o l1 IH]; intros w; simpl; [done|].
  unfold mbind, SE_bind in *. destruct (do_op o w) as [[e|[]] w1]; [done|].
  apply IH.
Qed.


(** ** The helper runs the operations of [walk_order], in that order *)

Lemma Admin_helper_exec T : ∀ P w,
  Admin.create_files_and_dirs P T w = exec (walk_order P T) w.
Proof.
  induction T as [|name content rest IHT IHrest] using dict_content_ind; [done|].
  intros P w. destruct content as [text|sub]; simpl.
  - unfold mbind, SE_bind.
    destruct (open_w (P // name) w) as [[e|f] w1]; [done|].
    destruct (f_write f text w1) as [[e|[]] w2]; [done|]. apply IHrest.
  - unfold mbind, SE_bind.
    destruct (Path_mkdir (P // name) false true w) as [[e|[]] w1]; [done|].
    rewrite exec_app, IHT. unfold mbind, SE_bind.
    destruct (exec _ w1) as [[e|[]] w2]; [done|]. apply IHrest.
Qed.

Lemma Web_helper_exec T : ∀ P w,
  Web.create_files_and_dirs P T w = exec (walk_order P T) w.
Proof.
  induction T as [|name content rest IHT IHrest] using dict_content_ind; [done|].
  intros P w. destruct content as [text|sub]; simpl.
  - unfold mbind, SE_bind.
    destruct (open_w (P // name) w) as [[e|f] w1]; [done|].
    destruct (f_write f text w1) as [[e|[]] w2]; [done|]. apply IHrest.
  - unfold mbind, SE_bind.
    destruct (Path_mkdir (P // name) false true w) as [[e|[]] w1]; [done|].
    rewrite exec_app, IHT. unfold mbind, SE_bind.
    destruct (exec _ w1) as [[e|[]] w2]; [done|]. apply IHrest.
Qed.

Lemma helper_exec s P T w :
  create_files_and_dirs s P T w = exec (walk_order P T) w.
Proof. destruct s; [apply Admin_helper_exec|apply Web_helper_exec]. Qed.

(** ** Runs of operation lists on the file system *)

(** The recorded calls follow the list of operations. *)
Lemma run_events_prefix wd l : ∀ m,
  run_events wd l m `prefix_of` flat_map op_events l.
Proof.
  induction l as [|o l IH]; intros m; simpl; [done|].
  destruct (op_fs wd o m) as [[e|[]] ma].
  - destruct o as [p|p text]; simpl.
    + by apply prefix_cons, prefix_nil.
    + by apply prefix_cons, prefix_nil.
  - by apply prefix_app.
Qed.

Lemma run_events_ok wd l : ∀ m m1,
  exec_fs wd l m = (inr tt, m1) → run_events wd l m = flat_map op_events l.
Proof.
  induction l as [|o l IH]; intros m m1; simpl; [done|].
  unfold mbind, SE_bind. destruct (op_fs wd o m) as [[e|[]] ma]; [done|].
  intros H. by erewrite IH.
Qed.

(** ** Properties of the helper on every tree *)



(** ** The scripts as a whole *)

Lemma no_print_in_ops l line : EvPrint line ∉ flat_map op_events l.
Proof.
  induction l as [|o l IH]; simpl; [apply not_elem_of_nil|].
  rewrite elem_of_app. intros [H|H]; [|done].
  destruct o; simpl in H; repeat (apply elem_of_cons in H as [H|H]; [done|]);
    by apply elem_of_nil in H.
Qed.

Lemma create_structure_unfold s w :
  create_structure s w =
  (Path_mkdir (base_dir s) true true;;
   create_files_and_dirs s (base_dir s) (structure s);;
   print ("Directory structure created successfully at " +:+ path_str (base_dir s))) w.
Proof. by destruct s. Qed.

(** C8: a run of [create_structure] that succeeds has printed exactly one
    line, which names the base path, and printed it last, after the calls
    of every entry of the tree; a run that fails has printed nothing. *)
Theorem completion_line_after_traversal (s : script) (w : world) :
  let line := "Directory structure created successfully at " +:+ path_str (base_dir s) in
  line = match s with
         | admin => "Directory structure created successfully at apps/admin"
         | web => "Directory structure created successfully at apps/web"
         end
  ∧ let '(r, w1) := create_structure s w in
    ∃ calls,
      (∀ l, EvPrint l ∉ calls) ∧
      match r with
      | inr _ =>
          calls = EvMkdir (base_dir s) true true
                  :: flat_map op_events (walk_order (base_dir s) (structure s))
          ∧ trace w1 = trace w ++ calls ++ [EvPrint line]
      | inl _ => trace w1 = trace w ++ calls
      end.
Proof.
  split; [by destruct s|].
  rewrite create_structure_unfold. unfold mbind, SE_bind.
  unfold Path_mkdir at 1, call.
  destruct (mkdir_fs true true (cwd w) (base_dir s) (fs w)) as [[e|[]] m0].
  - exists [EvMkdir (base_dir s) true true]. split; [|done].
    intros l [|Hin]%elem_of_cons; [done|]. by apply elem_of_nil in Hin.
  - rewrite helper_exec, exec_eq. simpl.
    destruct (exec_fs (cwd w) _ m0) as [[e|[]] m1] eqn:Hrun; simpl.
    + exists (EvMkdir (base_dir s) true true
              :: run_events (cwd w) (walk_order (base_dir s) (structure s)) m0).
      split.
      * intros l [|Hin]%elem_of_cons; [done|].
        eapply no_print_in_ops, elem_of_prefix; [exact Hin|].
        apply run_events_prefix.
      * by rewrite <- app_assoc.
    + exists (EvMkdir (base_dir s) true true
              :: flat_map op_events (walk_order (base_dir s) (structure s))).
      split; [|split; [done|]].
      * intros l [|Hin]%elem_of_cons; [done|]. by eapply no_print_in_ops.
      * rewrite (run_events_ok _ _ _ _ Hrun). by rewrite <- !app_assoc.
Qed.

(** C9: the helper of admin.py and the helper of web.py give, for every
    parent path, tree and starting state, the same result, the same recorded
    calls and the same file system; and each script is the one shared body
    run on its own base path and its own tree literal. *)
Theorem scripts_share_materializer :
  (∀ parent_path items w,
     Admin.create_files_and_dirs parent_path items w
     = Web.create_files_and_dirs parent_path items w)
  ∧ (∀ w, Admin.create_structure w = scaffold "apps/admin" Admin.structure w)
  ∧ (∀ w, Web.create_structure w = scaffold "apps/web" Web.structure w).
Proof.
  split_and!.
  - intros P T w. by rewrite Admin_helper_exec, Web_helper_exec.
  - done.
  - intros w. unfold Web.create_structure, scaffold, mbind, SE_bind.
    destruct (Path_mkdir _ true true w) as [[e|[]] w0]; [done|].
    fold Web.base_dir. by rewrite Web_helper_exec, Admin_helper_exec.
Qed.

(** ** Names that are one path component *)

Lemma split_sep_plain k : has_sep k = false → split_sep k = [k].
Proof.
  induction k as [|c k IH]; simpl; [done|].
  destruct (Ascii.eqb c "/"); simpl; [done|]. intros H. by rewrite IH.
Qed.

Lemma plain_name_inv k :
  plain_name k = true →
  is_abs k = false ∧ parse_parts k = [k] ∧ k ≠ ".." ∧ has_nul_char k = false.
Proof.
  unfold plain_name. rewrite !andb_true_iff, !negb_true_iff.
  intros [[[[He Hd] Hdd] Hs] Hn]. split_and!; try done.
  - destruct k as [|c k]; simpl in *; [done|].
    by destruct (Ascii.eqb c "/").
  - unfold parse_parts. rewrite split_sep_plain by done. simpl.
    by rewrite He, Hd.
  - intros ->. by rewrite String.eqb_refl in Hdd.
Qed.

Lemma truediv_plain P k : plain_name k = true → P // k = extend P [k].
Proof.
  intros (Ha&Hp&_)%plain_name_inv. unfold truediv, extend. by rewrite Ha, Hp.
Qed.

Lemma extend_extend P ks ks' : extend (extend P ks) ks' = extend P (ks ++ ks').
Proof. unfold extend. simpl. by rewrite app_assoc. Qed.


Lemma has_nul_extend P ks :
  has_nul (extend P ks) = has_nul P || existsb has_nul_char ks.
Proof. unfold has_nul, extend. simpl. apply existsb_app. Qed.


Lemma is_dir_located wd p m :
  is_dir wd p m = true → ∃ l w, locate wd p m = inr l ∧ m !! l = Some (EDir w).
Proof.
  unfold is_dir. destruct (locate wd p m) as [e|l]; [done|].
  destruct (m !! l) as [[w|w d]|] eqn:Hl; try done. eauto.
Qed.


(** ** Trees of plain names: where the operations act *)

Lemma plain_names_cons k v rest :
  plain_names (DCons k v rest) = true →
  plain_name k = true
  ∧ match v with Str _ => True | Dict sub => plain_names sub = true end
  ∧ plain_names rest = true.
Proof.
  simpl. rewrite !andb_true_iff. intros [[? ?] ?]. split_and!; try done.
  by destruct v.
Qed.

Lemma unique_keys_cons k v rest :
  unique_keys (DCons k v rest) = true →
  (k ∉ keys rest)
  ∧ match v with Str _ => True | Dict sub => unique_keys sub = true end
  ∧ unique_keys rest = true.
Proof.
  simpl. rewrite !andb_true_iff, bool_decide_eq_true.
  intros [[? ?] ?]. split_and!; try done. by destruct v.
Qed.

(** Every operation of a tree of plain names acts on the base path extended
    by a key of the tree and further plain names. *)
Lemma walk_order_paths T : ∀ P o,
  plain_names T = true → o ∈ walk_order P T →
  ∃ k ks, k ∈ keys T ∧ Forall (λ c, plain_name c = true) (k :: ks)
          ∧ op_path o = extend P (k :: ks).
Proof.
  induction T as [|name content rest IHT IHrest] using dict_content_ind.
  - intros P o _ Hin. by apply elem_of_nil in Hin.
  - intros P o (Hk&Hv&Hrest)%plain_names_cons Hin.
    assert (Hlater : o ∈ walk_order P rest →
      ∃ k ks, k ∈ keys (DCons name content rest)
              ∧ Forall (λ c, plain_name c = true) (k :: ks)
              ∧ op_path o = extend P (k :: ks)).
    { intros Ho. destruct (IHrest _ _ Hrest Ho) as (k&ks&?&?&?).
      exists k, ks. split_and!; try done. by right. }
    destruct content as [text|sub]; simpl in Hin.
    + apply elem_of_cons in Hin as [->|Hin]; [|by apply Hlater].
      exists name, []. split_and!; [by left|by repeat constructor|].
      simpl. by apply truediv_plain.
    + apply elem_of_cons in Hin as [->|Hin].
      { exists name, []. split_and!; [by left|by repeat constructor|].
        simpl. by apply truediv_plain. }
      apply elem_of_app in Hin as [Hin|Hin]; [|by apply Hlater].
      destruct (IHT _ _ Hv Hin) as (k&ks&_&Hks&Ho).
      exists name, (k :: ks). split_and!; [by left|by constructor|].
      by rewrite Ho, truediv_plain, extend_extend.
Qed.

Lemma prefix_snoc_inj (base : list string) a b loc :
  (base ++ [a]) `prefix_of` loc → (base ++ [b]) `prefix_of` loc → a = b.
Proof.
  intros [x ->] [y Hy]. rewrite <- !app_assoc in Hy.
  apply app_inv_head in Hy. by simplify_eq/=.
Qed.

Lemma prefix_snoc_longer (base : list string) a ks loc :
  (base ++ a :: ks) `prefix_of` loc → (base ++ [a]) `prefix_of` loc.
Proof. intros [x ->]. exists (ks ++ x). by rewrite <- !app_assoc. Qed.

Lemma snoc_not_prefix_self (base : list string) a : ¬ (base ++ [a]) `prefix_of` base.
Proof.
  intros [x Hx]. apply (f_equal length) in Hx. rewrite !length_app in Hx.
  simpl in Hx. lia.
Qed.

#[global] Arguments op_fs : simpl never.

Lemma is_dir_intro wd p m l w :
  locate wd p m = inr l → m !! l = Some (EDir w) → is_dir wd p m = true.
Proof. intros Hl Hm. unfold is_dir. by rewrite Hl, Hm. Qed.

(** ** Making the base directory *)

Lemma os_mkdir_ok_is_dir wd p m m' :
  os_mkdir wd p m = (inr tt, m') → is_dir wd p m' = true.
Proof.
  unfold os_mkdir. destruct (locate wd p m) as [e|l] eqn:Hl; [done|].
  destruct (m !! l) eqn:Hm; [done|].
  destruct (may_create m l) as [e|[]]; [done|]. intros [= <-].
  eapply is_dir_intro; [|apply lookup_insert_eq].
  eapply locate_mono; [|exact Hl]. by apply grows_insert_fresh.
Qed.

Lemma mkdir_here_ok_is_dir exist_ok wd p m m' :
  mkdir_here exist_ok wd p m = (inr tt, m') → is_dir wd p m' = true.
Proof.
  unfold mkdir_here. destruct (os_mkdir wd p m) as [[e|[]] m0] eqn:Ho.
  - destruct (decide (e = FileNotFoundError)); [done|].
    destruct (is_OSError e && exist_ok && is_dir wd p m0) eqn:Hc; [|done].
    intros [= <-]. by apply andb_true_iff in Hc as [_ ?].
  - intros [= <-]. by eapply os_mkdir_ok_is_dir.
Qed.


Lemma structure_plain s :
  plain_names (structure s) = true ∧ unique_keys (structure s) = true.
Proof. destruct s; by vm_compute. Qed.

(** ** Directory entries *)

Lemma Path_mkdir_here p w :
  Path_mkdir p false true w =
  let '(r, m) := mkdir_here true (cwd w) p (fs w) in
  (r, World m (cwd w) (trace w ++ [EvMkdir p false true])).
Proof. done. Qed.

(** C4 (as amended): for an entry whose value is a nested mapping the
    helper calls [mkdir(exist_ok=True)] on [basePath/name], then recurses
    into it, then goes on with the next entry.  The call raises no error
    when the directory is already there, and changes nothing then; when it
    succeeds the directory exists; the only entry it can ever add is that
    directory itself, in a parent that exists: a missing parent is not
    created, the error of resolving the path is raised instead. *)
Theorem directory_entry_contract (s : script) (P : Path) (name : string)
    (sub rest : dict) (w : world) :
  let current_path := P // name in
  create_files_and_dirs s P (DCons name (Dict sub) rest) w
  = (Path_mkdir current_path false true;;
     create_files_and_dirs s current_path sub;;
     create_files_and_dirs s P rest) w
  ∧ let '(r, w') := Path_mkdir current_path false true w in
    (is_dir (cwd w) current_path (fs w) = true → r = inr tt ∧ fs w' = fs w)
    ∧ (r = inr tt → is_dir (cwd w') current_path (fs w') = true)
    ∧ (∀ loc, fs w' !! loc ≠ fs w !! loc →
         r = inr tt
         ∧ locate (cwd w) current_path (fs w) = inr loc
         ∧ fs w !! loc = None
         ∧ fs w' !! loc = Some (EDir true)
         ∧ fs w !! removelast loc = Some (EDir true))
    ∧ (∀ e, locate (cwd w) current_path (fs w) = inl e → r = inl e).
Proof.
  cbv zeta. split.
  - destruct s; simpl; unfold mbind, SE_bind;
      (destruct (Path_mkdir (P // name) false true w) as [[e|[]] w1]; [done|]).
    + by destruct (Admin.create_files_and_dirs (P // name) sub w1) as [[e|[]] w2].
    + by destruct (Web.create_files_and_dirs (P // name) sub w1) as [[e|[]] w2].
  - rewrite Path_mkdir_here.
    destruct (mkdir_here true (cwd w) (P // name) (fs w)) as [r m'] eqn:Hm.
    simpl. pose proof Hm as Hm'. rewrite mkdir_here_eq in Hm'. split_and!.
    + intros (l&wr&Hl&Hd)%is_dir_located. rewrite Hl, Hd in Hm'.
      by injection Hm' as <- <-.
    + intros ->. by eapply mkdir_here_ok_is_dir.
    + intros loc Hne.
      destruct (locate (cwd w) (P // name) (fs w)) as [e|l];
        [by injection Hm' as <- <-|].
      destruct (fs w !! l) as [[wr|wr d]|] eqn:Hl;
        [by injection Hm' as <- <-|by injection Hm' as <- <-|].
      unfold may_create in Hm'.
      destruct (fs w !! removelast l) as [[[]|]|] eqn:Hparent;
        try by injection Hm' as <- <-.
      injection Hm' as <- <-.
      destruct (decide (l = loc)) as [<-|Hll].
      * by rewrite lookup_insert_eq.
      * by rewrite lookup_insert_ne in Hne.
    + intros e He. rewrite He in Hm'. by injection Hm' as <- <-.
Qed.

(** C4 as stated fails: no parent directory is created.  With a base path
    that does not exist, and with a key that names a directory two levels
    down, the helper raises [FileNotFoundError] and the directory of the
    entry does not exist afterwards. *)
Lemma parents_are_not_created :
  (let P := PathOf "missing" in
   let '(r, w1) := create_files_and_dirs admin P (dict_of [("d", Dict DNil)])
                     (in_srv srv_fs) in
   r = inl FileNotFoundError
   ∧ is_dir (cwd w1) (P // "d") (fs w1) = false
   ∧ fs w1 = srv_fs)
  ∧ (let P := PathOf "out" in
     let '(r, w1) := create_files_and_dirs admin P (dict_of [("a/b", Dict DNil)])
                       (in_srv out_fs) in
     r = inl FileNotFoundError
     ∧ is_dir (cwd w1) (P // "a/b") (fs w1) = false
     ∧ fs w1 = out_fs).
Proof. by vm_compute. Qed.

(** ** The parent path of every invocation *)







(** * Further properties of the two scripts *)

(** ** Every tree: the kinds of the entries after a successful run *)







(** ** Every tree: a mapping can be materialized in two parts *)

Lemma walk_order_app P T1 T2 :
  walk_order P (dict_app T1 T2) = walk_order P T1 ++ walk_order P T2.
Proof.
  induction T1 as [|name content rest _ IHrest] using dict_content_ind; [done|].
  destruct content as [text|sub]; simpl; rewrite IHrest; [done|].
  by rewrite <- app_assoc.
Qed.

(** X2: running the helper on the items of a mapping followed by the items
    of another is running it on the first and then, unless that raised, on
    the second: same result, same recorded calls, same file system. *)
Theorem helper_splits_over_items (s : script) (P : Path) (T1 T2 : dict) (w : world) :
  create_files_and_dirs s P (dict_app T1 T2) w
  = (create_files_and_dirs s P T1;; create_files_and_dirs s P T2) w.
Proof.
  rewrite helper_exec, walk_order_app, exec_app. unfold mbind, SE_bind.
  rewrite <- helper_exec with (s := s).
  destruct (create_files_and_dirs s P T1 w) as [[e|[]] w1]; [done|].
  by rewrite helper_exec.
Qed.

(** ** The files of a tree of plain names *)

Lemma files_of_below T : ∀ base loc text,
  (loc, text) ∈ files_of base T →
  ∃ k, k ∈ keys T ∧ (base ++ [k]) `prefix_of` loc.
Proof.
  induction T as [|name content rest IHT IHrest] using dict_content_ind.
  - intros base loc text Hin. by apply elem_of_nil in Hin.
  - intros base loc text Hin.
    assert (Hlater : (loc, text) ∈ files_of base rest →
      ∃ k, k ∈ keys (DCons name content rest) ∧ (base ++ [k]) `prefix_of` loc).
    { intros (k&?&?)%IHrest. exists k. split; [by right|done]. }
    destruct content as [text'|sub]; simpl in Hin.
    + apply elem_of_cons in Hin as [[= -> ->]|Hin]; [|by apply Hlater].
      exists name. split; [by left|done].
    + apply elem_of_app in Hin as [Hin|Hin]; [|by apply Hlater].
      apply IHT in Hin as (k&_&Hp). exists name. split; [by left|].
      by eapply prefix_app_l.
Qed.

Lemma leaves_empty_files T : ∀ base loc text,
  leaves_empty T = true → (loc, text) ∈ files_of base T → text = "".
Proof.
  induction T as [|name content rest IHT IHrest] using dict_content_ind.
  - intros base loc text _ Hin. by apply elem_of_nil in Hin.
  - intros base loc text Hle Hin. destruct content as [text'|sub]; simpl in *;
      apply andb_true_iff in Hle as [Hhead Hrest].
    + apply elem_of_cons in Hin as [[= -> ->]|Hin]; [|by eapply IHrest].
      by apply bool_decide_eq_true in Hhead.
    + apply elem_of_app in Hin as [Hin|Hin]; [by eapply IHT|by eapply IHrest].
Qed.

Lemma structure_leaves_empty s : leaves_empty (structure s) = true.
Proof. destruct s; by vm_compute. Qed.

(** * The scripts on a fuller platform

    The platform of the first part has directories and regular files only,
    lets the process write to whatever it creates and search every
    directory, and never fails in [write].  This part runs the same source
    text on a platform without those simplifications:
    - an entry is a directory, a regular file or a symbolic link; path
      resolution follows links, [os.mkdir] does not follow a link in the
      last component, [open] and [is_dir] do;
    - a directory has a write and a search permission; both are the
      effective permissions of the process (a privileged process holds
      them all);
    - the permissions of a created entry are those the host grants
      (the creation mode with the umask taken away);
    - a path component longer than the host's [NAME_MAX], or a path text
      longer than its [PATH_MAX], is refused with [ENAMETOOLONG]; more
      symbolic links on one path than the host follows give [ELOOP];
    - [f.write] raises [UnicodeEncodeError] when the text cannot be encoded
      in the default encoding of [open]; the file is then already created
      or emptied.

    Left out, and assumed absent wherever a statement below needs it: a
    second name (hard link) for a regular file, device files and other
    special files, file systems that identify names differing in case or
    normalisation, failures of the host that the state of the file tree
    does not explain (a full disk, an I/O error, a limit on open files or
    on the interpreter's stack), and other processes changing the file
    tree during the run.  [is_dir] is that of Python 3.13: it answers
    [False] on every error. *)

Module Posix.

(** ** The file system *)

Inductive entry : Type :=
  | EDir (writable searchable : bool)
  | EFile (writable : bool) (data : string)
  | ELink (target : Path).

Inductive error : Type :=
  | FileNotFoundError
  | FileExistsError
  | NotADirectoryError
  | IsADirectoryError
  | PermissionError
  | NameTooLong
  | TooManyLinks
  | ValueError
  | UnicodeEncodeError.

#[global] Instance Path_eq_dec : EqDecision Path.
Proof. solve_decision. Defined.

#[global] Instance error_eq_dec : EqDecision error.
Proof. solve_decision. Defined.

#[global] Instance entry_eq_dec : EqDecision entry.
Proof. solve_decision. Defined.

(** [NameTooLong] and [TooManyLinks] are [OSError] with [ENAMETOOLONG] and
    [ELOOP]; [UnicodeEncodeError] is a [ValueError]. *)
Definition is_OSError (e : error) : bool :=
  match e with ValueError | UnicodeEncodeError => false | _ => true end.

(** What the host decides. *)
Record host : Type := Host {
  new_writable : bool;
  new_searchable : bool;
  encodes : string → bool;
  name_max : nat;
  path_max : nat;
  link_max : nat
}.

(** The empty text is encoded by every encoding. *)
Definition can_encode (h : host) (text : string) : bool :=
  bool_decide (text = "") || encodes h text.

Definition name_ok (h : host) (c : string) : bool :=
  Nat.leb (String.length c) (name_max h).

Definition path_ok (h : host) (p : Path) : bool :=
  Nat.ltb (String.length (path_str p)) (path_max h).

Record world : Type := World {
  fs : gmap (list string) entry;
  cwd : list string;
  platform : host;
  trace : list event
}.

(** State and exception monad: the state survives an exception. *)
Definition PE (S A : Type) : Type := S → (error + A) * S.

#[global] Instance PE_ret {S} : MRet (PE S) := λ A a s, (inr a, s).
#[global] Instance PE_bind {S} : MBind (PE S) := λ A B k c s,
  match c s with
  | (inl e, s') => (inl e, s')
  | (inr a, s') => k a s'
  end.

Definition M : Type → Type := PE world.

(** *** Path resolution *)

(** Walk the components [cs] from the directory at [cur].  Every directory
    that is searched must exist, be a directory and be searchable.  A
    symbolic link met on the way is followed: its target is resolved from
    the directory holding the link, or from the root when it is absolute.
    A link in the last component is followed when [follow] holds.  The
    last component need not exist. *)
Fixpoint walk (hops : nat) (h : host) (m : gmap (list string) entry)
  : list string → list string → bool → error + list string :=
  fix go (cur cs : list string) (follow : bool) {struct cs} :=
    match cs with
    | [] => inr cur
    | c :: rest =>
        match m !! cur with
        | Some (EDir _ true) =>
            if negb (name_ok h c) then inl NameTooLong
            else if decide (c = "..") then go (removelast cur) rest follow
            else
              match m !! (cur ++ [c]) with
              | Some (ELink t) =>
                  if follow || negb (bool_decide (rest = [])) then
                    match hops with
                    | 0 => inl TooManyLinks
                    | S hops' =>
                        walk hops' h m (if anchored t then [] else cur)
                          (parts t ++ rest) follow
                    end
                  else inr (cur ++ [c])
              | _ => go (cur ++ [c]) rest follow
              end
        | Some (EDir _ false) => inl PermissionError
        | Some (EFile _ _) | Some (ELink _) => inl NotADirectoryError
        | None => inl FileNotFoundError
        end
    end.

Definition locate (follow : bool) (h : host) (wd : list string) (p : Path)
    (m : gmap (list string) entry) : error + list string :=
  if has_nul p then inl ValueError
  else if negb (path_ok h p) then inl NameTooLong
  else walk (link_max h) h m (if anchored p then [] else wd) (parts p) follow.

(** May a new entry be made at location [l]?  The directory above has
    been searched on the way to [l]; it must be writable. *)
Definition may_create (m : gmap (list string) entry) (l : list string)
  : error + unit :=
  match m !! removelast l with
  | Some (EDir true _) => inr tt
  | Some (EDir false _) => inl PermissionError
  | Some (EFile _ _) | Some (ELink _) => inl NotADirectoryError
  | None => inl FileNotFoundError
  end.

(** *** System calls and pathlib methods on the file system *)

(** [os.mkdir(p)]: a link in the last component is not followed. *)
Definition os_mkdir (h : host) (wd : list string) (p : Path)
  : PE (gmap (list string) entry) unit :=
  λ m,
  match locate false h wd p m with
  | inl e => (inl e, m)
  | inr l =>
      match m !! l with
      | Some _ => (inl FileExistsError, m)
      | None =>
          match may_create m l with
          | inl e => (inl e, m)
          | inr _ => (inr tt, <[l := EDir (new_writable h) (new_searchable h)]> m)
          end
      end
  end.

(** [p.is_dir()] *)
Definition is_dir (h : host) (wd : list string) (p : Path)
    (m : gmap (list string) entry) : bool :=
  match locate true h wd p m with
  | inr l => match m !! l with Some (EDir _ _) => true | _ => false end
  | inl _ => false
  end.

(** [p.is_file()] *)
Definition is_file (h : host) (wd : list string) (p : Path)
    (m : gmap (list string) entry) : bool :=
  match locate true h wd p m with
  | inr l => match m !! l with Some (EFile _ _) => true | _ => false end
  | inl _ => false
  end.

(** [Path.mkdir(parents=False, exist_ok)]:
<<
    try: os.mkdir(self, mode)
    except FileNotFoundError: raise            # parents is False
    except OSError:
        if not exist_ok or not self.is_dir(): raise
>> *)
Definition mkdir_here (exist_ok : bool) (h : host) (wd : list string) (p : Path)
  : PE (gmap (list string) entry) unit :=
  λ m,
  match os_mkdir h wd p m with
  | (inl e, m') =>
      if decide (e = FileNotFoundError) then (inl e, m')
      else if is_OSError e && exist_ok && is_dir h wd p m' then (inr tt, m')
      else (inl e, m')
  | ok => ok
  end.

(** [Path.mkdir(parents=True, exist_ok)], by recursion on the reversed
    components ([self.parent] drops the last one):
<<
    try: os.mkdir(self, mode)
    except FileNotFoundError:
        if not parents or self.parent == self: raise
        self.parent.mkdir(parents=True, exist_ok=True)
        self.mkdir(mode, parents=False, exist_ok=exist_ok)
    except OSError:
        if not exist_ok or not self.is_dir(): raise
>> *)
Fixpoint mkdir_up (exist_ok : bool) (h : host) (wd : list string) (a : bool)
    (rparts : list string) : PE (gmap (list string) entry) unit :=
  λ m,
  let self := mkPath a (rev rparts) in
  match os_mkdir h wd self m with
  | (inl e, m') =>
      if decide (e = FileNotFoundError) then
        match rparts with
        | [] => (inl e, m')
        | _ :: up =>
            match mkdir_up true h wd a up m' with
            | (inl e', m'') => (inl e', m'')
            | (inr _, m'') => mkdir_here exist_ok h wd self m''
            end
        end
      else if is_OSError e && exist_ok && is_dir h wd self m' then (inr tt, m')
      else (inl e, m')
  | ok => ok
  end.

Definition mkdir_fs (parents exist_ok : bool) (h : host) (wd : list string) (p : Path)
  : PE (gmap (list string) entry) unit :=
  if parents then mkdir_up exist_ok h wd (anchored p) (rev (parts p))
  else mkdir_here exist_ok h wd p.

(** [open(p, "w")]: a link in the last component is followed; the file is
    created, with the permissions the host grants, or emptied, which needs
    the permission to write to it.  The handle is the location of the open
    file. *)
Definition open_w_fs (h : host) (wd : list string) (p : Path)
  : PE (gmap (list string) entry) (list string) :=
  λ m,
  match locate true h wd p m with
  | inl e => (inl e, m)
  | inr l =>
      match m !! l with
      | Some (EDir _ _) => (inl IsADirectoryError, m)
      | Some (ELink _) => (inl TooManyLinks, m)
      | Some (EFile false _) => (inl PermissionError, m)
      | Some (EFile true _) => (inr l, <[l := EFile true ""]> m)
      | None =>
          match may_create m l with
          | inl e => (inl e, m)
          | inr _ => (inr l, <[l := EFile (new_writable h) ""]> m)
          end
      end
  end.

(** [f.write(text)] on a handle opened for writing: the text is encoded
    and appended at the end of the file; a text that cannot be encoded
    raises and leaves the file as [open] left it.  The handle stays
    writable whatever the permissions of the file are. *)
Definition write_fs (h : host) (f : list string) (text : string)
  : PE (gmap (list string) entry) unit :=
  λ m,
  if can_encode h text then
    match m !! f with
    | Some (EFile w data) => (inr tt, <[f := EFile w (data +:+ text)]> m)
    | _ => (inr tt, m)
    end
  else (inl UnicodeEncodeError, m).

(** *** The calls as the scripts make them: each one is recorded *)

Definition call {A} (ev : event)
    (c : host → list string → PE (gmap (list string) entry) A) : M A :=
  λ w,
  let '(r, m) := c (platform w) (cwd w) (fs w) in
  (r, World m (cwd w) (platform w) (trace w ++ [ev])).

Definition Path_mkdir (p : Path) (parents exist_ok : bool) : M unit :=
  call (EvMkdir p parents exist_ok) (λ h wd, mkdir_fs parents exist_ok h wd p).

Definition open_w (p : Path) : M (list string) :=
  call (EvOpen p) (λ h wd, open_w_fs h wd p).

Definition f_write (f : list string) (text : string) : M unit :=
  call (EvWrite text) (λ h _, write_fs h f text).

Definition print (line : string) : M unit :=
  λ w, (inr tt, World (fs w) (cwd w) (platform w) (trace w ++ [EvPrint line])).

(** ** The scripts, over this platform *)

Module Admin.

(** [base_dir = Path("apps/admin")] *)
Definition base_dir : Path := base_dir admin.

(** The [structure] literal of admin.py, as embedded above. *)
Definition structure : dict := structure admin.

(** [def create_files_and_dirs(parent_path, items)] of admin.py *)
Fixpoint create_files_and_dirs (parent_path : Path) (items : dict) : M unit :=
  match items with
  | DNil => mret tt
  | DCons name content rest =>
      let current_path := parent_path // name in
      match content with
      | Dict sub =>
          Path_mkdir current_path false true;;
          create_files_and_dirs current_path sub
      | Str text =>
          f ← open_w current_path;
          f_write f text
      end;;
      create_files_and_dirs parent_path rest
  end.

(** [def create_structure()] of admin.py *)
Definition create_structure : M unit :=
  Path_mkdir base_dir true true;;
  create_files_and_dirs base_dir structure;;
  print ("Directory structure created successfully at " +:+ path_str base_dir).

End Admin.

Module Web.

(** [base_dir = Path("apps/web")] *)
Definition base_dir : Path := base_dir web.

(** The [structure] literal of web.py, as embedded above. *)
Definition structure : dict := structure web.

(** [def create_files_and_dirs(parent_path, items)] of web.py *)
Fixpoint create_files_and_dirs (parent_path : Path) (items : dict) : M unit :=
  match items with
  | DNil => mret tt
  | DCons name content rest =>
      let current_path := parent_path // name in
      match content with
      | Dict sub =>
          Path_mkdir current_path false true;;
          create_files_and_dirs current_path sub
      | Str text =>
          f ← open_w current_path;
          f_write f text
      end;;
      create_files_and_dirs parent_path rest
  end.

(** [def create_structure()] of web.py *)
Definition create_structure : M unit :=
  Path_mkdir base_dir true true;;
  create_files_and_dirs base_dir structure;;
  print ("Directory structure created successfully at " +:+ path_str base_dir).

End Web.

Definition create_files_and_dirs (s : script) : Path → dict → M unit :=
  match s with
  | admin => Admin.create_files_and_dirs
  | web => Web.create_files_and_dirs
  end.

Definition create_structure (s : script) : M unit :=
  match s with
  | admin => Admin.create_structure
  | web => Web.create_structure
  end.

(** ** Vocabulary of the properties *)

(** The kind of an entry: what it is, its permissions and, for a link, its
    target; not the data of a file. *)
Definition kind (e : entry) : entry :=
  match e with
  | EFile w _ => EFile w ""
  | _ => e
  end.

Definition shape (m : gmap (list string) entry) : gmap (list string) entry :=
  kind <$> m.

(** [grows m m']: every entry of [m] is in [m'] with its kind, and [m'] has
    no symbolic link that [m] has not; directories and files may have been
    added and file data may have changed. *)
Definition grows (m m' : gmap (list string) entry) : Prop :=
  shape m ⊆ shape m'
  ∧ ∀ l t, m' !! l = Some (ELink t) → m !! l = Some (ELink t).

Definition is_link (e : entry) : bool :=
  match e with ELink _ => true | _ => false end.

(** No symbolic link stands at the location [base] or below it. *)
Definition no_links_below (m : gmap (list string) entry) (base : list string) : bool :=
  forallb (λ le, negb (is_link le.2) || negb (bool_decide (base `prefix_of` le.1)))
    (map_to_list m).

Definition op_fs (h : host) (wd : list string) (o : op)
  : PE (gmap (list string) entry) unit :=
  match o with
  | OpMkdir p => mkdir_fs false true h wd p
  | OpWriteFile p text => f ← open_w_fs h wd p; write_fs h f text
  end.

Definition do_op (o : op) : M unit :=
  match o with
  | OpMkdir p => Path_mkdir p false true
  | OpWriteFile p text => f ← open_w p; f_write f text
  end.

(** Run operations in sequence; the first exception ends the run. *)
Fixpoint exec (l : list op) : M unit :=
  match l with
  | [] => mret tt
  | o :: l' => do_op o;; exec l'
  end.

Fixpoint exec_fs (h : host) (wd : list string) (l : list op)
  : PE (gmap (list string) entry) unit :=
  match l with
  | [] => mret tt
  | o :: l' => op_fs h wd o;; exec_fs h wd l'
  end.

(** The location an operation acts on: [os.mkdir] does not follow a link
    in the last component of its path, [open] does. *)
Definition target (h : host) (wd : list string) (o : op)
    (m : gmap (list string) entry) : error + list string :=
  match o with
  | OpMkdir p => locate false h wd p m
  | OpWriteFile p _ => locate true h wd p m
  end.

(** The platform calls made for an operation run from [m]: when [open]
    fails there is no [write]. *)
Definition attempted (h : host) (wd : list string) (o : op)
    (m : gmap (list string) entry) : list event :=
  match o with
  | OpMkdir p => [EvMkdir p false true]
  | OpWriteFile p text =>
      match open_w_fs h wd p m with
      | (inl _, _) => [EvOpen p]
      | (inr _, _) => [EvOpen p; EvWrite text]
      end
  end.

(** The calls made by a run of [l] from [m], up to its first failure. *)
Fixpoint run_events (h : host) (wd : list string) (l : list op)
    (m : gmap (list string) entry) : list event :=
  match l with
  | [] => []
  | o :: l' =>
      attempted h wd o m ++
      match op_fs h wd o m with
      | (inl _, _) => []
      | (inr _, m') => run_events h wd l' m'
      end
  end.



Definition creatable (m : gmap (list string) entry) (l : list string) : bool :=
  match may_create m l with inr _ => true | inl _ => false end.

Definition searchable (m : gmap (list string) entry) (l : list string) : bool :=
  match m !! l with Some (EDir _ true) => true | _ => false end.

(** Can the entry [name] of the directory at [base], the location of the
    path [P], be reached: its path is within the host's limits and the
    directory can be searched. *)
Definition reach (h : host) (m : gmap (list string) entry) (P : Path)
    (base : list string) (name : string) : bool :=
  path_ok h (P // name) && searchable m base && name_ok h name.

(** The exception of a path resolution that does not reach the entry. *)
Definition reach_error (h : host) (m : gmap (list string) entry) (P : Path)
    (base : list string) (name : string) : error :=
  if path_ok h (P // name) then
    match m !! base with
    | Some (EDir _ true) => NameTooLong
    | Some (EDir _ false) => PermissionError
    | Some _ => NotADirectoryError
    | None => FileNotFoundError
    end
  else NameTooLong.

(** [fits h m P base T]: the host [h] and what is in [m] at and below the
    location [base] of the path [P] let the tree [T] be made there.  For
    every entry:
    - the path of the entry is within the host's limits and the directory
      it lies in can be searched;
    - where [T] has a mapping there is a directory, or nothing, and then the
      directory above is writable (the entries of the mapping are then
      made in a directory with the permissions the host grants);
    - where [T] has a string there is a regular file the process may write,
      or nothing, and then the directory above is writable; and the string
      can be encoded. *)
Fixpoint fits (h : host) (m : gmap (list string) entry) (P : Path)
    (base : list string) (T : dict) : bool :=
  match T with
  | DNil => true
  | DCons name content rest =>
      let here := base ++ [name] in
      reach h m P base name
      && match content, m !! here with
         | Str text, None => creatable m here && can_encode h text
         | Str text, Some (EFile w _) => w && can_encode h text
         | Str _, Some _ => false
         | Dict sub, None =>
             creatable m here
             && fits h (<[here := EDir (new_writable h) (new_searchable h)]> m)
                  (P // name) here sub
         | Dict sub, Some (EDir _ _) => fits h m (P // name) here sub
         | Dict sub, Some _ => false
         end
      && fits h m P base rest
  end.

(** ** Basic facts: kinds and growth *)

Lemma px_shape_lookup m l : shape m !! l = kind <$> m !! l.
Proof. apply lookup_fmap. Qed.

Lemma px_grows_lookup m m' l e :
  grows m m' → m !! l = Some e → ∃ e', m' !! l = Some e' ∧ kind e' = kind e.
Proof.
  intros [Hg _] Hl.
  assert (Hs : shape m !! l = Some (kind e)) by (by rewrite px_shape_lookup, Hl).
  eapply lookup_weaken in Hs; [|exact Hg].
  rewrite px_shape_lookup in Hs.
  destruct (m' !! l) as [e'|]; simplify_eq/=. eauto.
Qed.

Lemma px_grows_dir m m' l w x :
  grows m m' → m !! l = Some (EDir w x) → m' !! l = Some (EDir w x).
Proof.
  intros Hg Hl. destruct (px_grows_lookup _ _ _ _ Hg Hl) as ([]&?&?); by simplify_eq/=.
Qed.

Lemma px_grows_file m m' l w d :
  grows m m' → m !! l = Some (EFile w d) → ∃ d', m' !! l = Some (EFile w d').
Proof.
  intros Hg Hl. destruct (px_grows_lookup _ _ _ _ Hg Hl) as ([]&?&?); simplify_eq/=; eauto.
Qed.

Lemma px_grows_link m m' l t :
  grows m m' → m !! l = Some (ELink t) → m' !! l = Some (ELink t).
Proof.
  intros Hg Hl. destruct (px_grows_lookup _ _ _ _ Hg Hl) as ([]&?&?); by simplify_eq/=.
Qed.

Lemma px_grows_no_new_link m m' l t :
  grows m m' → m' !! l = Some (ELink t) → m !! l = Some (ELink t).
Proof. intros [_ Hg]. apply Hg. Qed.

Lemma px_grows_refl m : grows m m.
Proof. by split. Qed.

Lemma px_grows_trans m1 m2 m3 : grows m1 m2 → grows m2 m3 → grows m1 m3.
Proof.
  intros [H1 L1] [H2 L2]. split; [by etrans|]. intros l t H. by apply L1, L2.
Qed.

Lemma px_grows_insert_fresh m l e :
  m !! l = None → is_link e = false → grows m (<[l := e]> m).
Proof.
  intros Hl He. split.
  - unfold shape. rewrite fmap_insert.
    apply insert_subseteq. by rewrite lookup_fmap, Hl.
  - intros l' t. destruct (decide (l' = l)) as [->|Hne].
    + rewrite lookup_insert_eq. intros [= ->]. done.
    + by rewrite lookup_insert_ne.
Qed.

Lemma px_grows_insert_file m l w d d' :
  m !! l = Some (EFile w d) → grows m (<[l := EFile w d']> m).
Proof.
  intros Hl. split.
  - unfold shape. rewrite fmap_insert. rewrite insert_id; [done|].
    by rewrite lookup_fmap, Hl.
  - intros l' t. destruct (decide (l' = l)) as [->|Hne].
    + by rewrite lookup_insert_eq.
    + by rewrite lookup_insert_ne.
Qed.

Lemma px_no_links_below_spec m base :
  no_links_below m base = true ↔
  ∀ loc t, base `prefix_of` loc → m !! loc ≠ Some (ELink t).
Proof.
  unfold no_links_below. rewrite forallb_forall. split.
  - intros H loc t Hp Hl.
    specialize (H (loc, ELink t)). simpl in H.
    rewrite bool_decide_eq_true_2 in H by done.
    discriminate H. apply list_elem_of_In. by apply elem_of_map_to_list.
  - intros H [loc e] Hin. simpl.
    apply list_elem_of_In, elem_of_map_to_list in Hin.
    destruct e as [| |t]; try done. simpl.
    apply negb_true_iff, bool_decide_eq_false. intros Hp. by eapply H.
Qed.

Lemma px_no_links_grows m m' base :
  grows m m' → no_links_below m base = true → no_links_below m' base = true.
Proof.
  rewrite !px_no_links_below_spec. intros Hg H loc t Hp Hl.
  apply (H loc t Hp). by eapply px_grows_no_new_link.
Qed.

(** ** Path resolution *)

Lemma px_walk_unfold hops h m cur cs follow :
  walk hops h m cur cs follow =
  match cs with
  | [] => inr cur
  | c :: rest =>
      match m !! cur with
      | Some (EDir _ true) =>
          if negb (name_ok h c) then inl NameTooLong
          else if decide (c = "..") then walk hops h m (removelast cur) rest follow
          else
            match m !! (cur ++ [c]) with
            | Some (ELink t) =>
                if follow || negb (bool_decide (rest = [])) then
                  match hops with
                  | 0 => inl TooManyLinks
                  | S hops' =>
                      walk hops' h m (if anchored t then [] else cur)
                        (parts t ++ rest) follow
                  end
                else inr (cur ++ [c])
            | _ => walk hops h m (cur ++ [c]) rest follow
            end
      | Some (EDir _ false) => inl PermissionError
      | Some (EFile _ _) | Some (ELink _) => inl NotADirectoryError
      | None => inl FileNotFoundError
      end
  end.
Proof. destruct hops, cs; reflexivity. Qed.

#[global] Opaque walk.

(** Path resolution is stable when the file system grows. *)
Lemma px_walk_mono h m m' follow :
  grows m m' →
  ∀ hops cs cur l,
    walk hops h m cur cs follow = inr l → walk hops h m' cur cs follow = inr l.
Proof.
  intros Hg. induction hops as [hops IHhops] using lt_wf_ind.
  induction cs as [|c rest IH]; intros cur l;
    rewrite (px_walk_unfold _ _ m), (px_walk_unfold _ _ m'); [done|].
  destruct (m !! cur) as [[w [] |w d|t]|] eqn:Hc; try done.
  rewrite (px_grows_dir _ _ _ _ _ Hg Hc).
  destruct (negb (name_ok h c)); [done|].
  destruct (decide (c = "..")); [apply IH|].
  destruct (m !! (cur ++ [c])) as [[w' x'|w' d'|t']|] eqn:Hn.
  - rewrite (px_grows_dir _ _ _ _ _ Hg Hn). apply IH.
  - destruct (px_grows_file _ _ _ _ _ Hg Hn) as [d'' ->]. apply IH.
  - rewrite (px_grows_link _ _ _ _ Hg Hn).
    destruct (follow || negb (bool_decide (rest = []))); [|done].
    destruct hops as [|hops']; [done|]. apply IHhops. lia.
  - intros H.
    destruct (m' !! (cur ++ [c])) as [[w' x'|w' d'|t']|] eqn:Hn'; try by apply IH.
    by rewrite (px_grows_no_new_link _ _ _ _ Hg Hn') in Hn.
Qed.

Lemma px_locate_mono follow h wd p m m' l :
  grows m m' → locate follow h wd p m = inr l → locate follow h wd p m' = inr l.
Proof.
  unfold locate. destruct (has_nul p); [done|].
  destruct (negb (path_ok h p)); [done|]. intros Hg. by apply px_walk_mono.
Qed.

Lemma px_may_create_mono m m' l :
  grows m m' → may_create m l = inr tt → may_create m' l = inr tt.
Proof.
  unfold may_create. intros Hg.
  destruct (m !! removelast l) as [[[] x|w d|t]|] eqn:Hc; try done.
  by rewrite (px_grows_dir _ _ _ _ _ Hg Hc).
Qed.

(** Following a link in the last component matters only when there is
    one. *)
Lemma px_walk_follow_fail h m :
  ∀ hops cs cur e,
    walk hops h m cur cs false = inl e → walk hops h m cur cs true = inl e.
Proof.
  induction hops as [hops IHhops] using lt_wf_ind.
  induction cs as [|c rest IH]; intros cur e;
    rewrite (px_walk_unfold _ _ _ _ _ false), (px_walk_unfold _ _ _ _ _ true); [done|].
  destruct (m !! cur) as [[w [] |w d|t]|]; try done.
  destruct (negb (name_ok h c)); [done|].
  destruct (decide (c = "..")); [apply IH|].
  destruct (m !! (cur ++ [c])) as [[w' x'|w' d'|t']|]; try apply IH.
  simpl. destruct (negb (bool_decide (rest = []))); [|done].
  destruct hops as [|hops']; [done|]. apply IHhops. lia.
Qed.

Lemma px_walk_follow_same h m :
  ∀ hops cs cur l,
    walk hops h m cur cs false = inr l →
    (∀ t, m !! l ≠ Some (ELink t)) →
    walk hops h m cur cs true = inr l.
Proof.
  induction hops as [hops IHhops] using lt_wf_ind.
  induction cs as [|c rest IH]; intros cur l;
    rewrite (px_walk_unfold _ _ _ _ _ false), (px_walk_unfold _ _ _ _ _ true); [done|].
  destruct (m !! cur) as [[w [] |w d|t]|]; try done.
  destruct (negb (name_ok h c)); [done|].
  destruct (decide (c = "..")); [apply IH|].
  destruct (m !! (cur ++ [c])) as [[w' x'|w' d'|t']|] eqn:Hn; try apply IH.
  simpl. destruct (negb (bool_decide (rest = []))).
  - destruct hops as [|hops']; [done|]. apply IHhops. lia.
  - intros [= <-] H. by destruct (H t').
Qed.

Lemma px_locate_follow_fail h wd p m e :
  locate false h wd p m = inl e → locate true h wd p m = inl e.
Proof.
  unfold locate. destruct (has_nul p); [done|].
  destruct (negb (path_ok h p)); [done|]. apply px_walk_follow_fail.
Qed.

Lemma px_locate_follow_same h wd p m l :
  locate false h wd p m = inr l → (∀ t, m !! l ≠ Some (ELink t)) →
  locate true h wd p m = inr l.
Proof.
  unfold locate. destruct (has_nul p); [done|].
  destruct (negb (path_ok h p)); [done|]. apply px_walk_follow_same.
Qed.

(** ** The two operations in closed form *)

Lemma px_mkdir_here_eq h wd p m :
  mkdir_here true h wd p m =
  match locate false h wd p m with
  | inl e => (inl e, m)
  | inr l =>
      match m !! l with
      | Some _ => if is_dir h wd p m then (inr tt, m) else (inl FileExistsError, m)
      | None =>
          match may_create m l with
          | inl e => (inl e, m)
          | inr _ => (inr tt, <[l := EDir (new_writable h) (new_searchable h)]> m)
          end
      end
  end.
Proof.
  unfold mkdir_here, os_mkdir.
  destruct (locate false h wd p m) as [e|l] eqn:Hloc.
  - unfold is_dir. rewrite (px_locate_follow_fail _ _ _ _ _ Hloc).
    destruct e; simpl; done.
  - destruct (m !! l) as [e0|] eqn:Hl.
    + simpl. by destruct (is_dir h wd p m).
    + destruct (may_create m l) as [e|[]] eqn:Hc; [|done].
      unfold is_dir. rewrite (px_locate_follow_same _ _ _ _ _ Hloc), Hl
        by (intros t; by rewrite Hl).
      destruct e; simpl; done.
Qed.

Lemma px_write_file_eq h wd p text m :
  op_fs h wd (OpWriteFile p text) m =
  match locate true h wd p m with
  | inl e => (inl e, m)
  | inr l =>
      match m !! l with
      | Some (EDir _ _) => (inl IsADirectoryError, m)
      | Some (ELink _) => (inl TooManyLinks, m)
      | Some (EFile false _) => (inl PermissionError, m)
      | Some (EFile true _) =>
          if can_encode h text then (inr tt, <[l := EFile true text]> m)
          else (inl UnicodeEncodeError, <[l := EFile true ""]> m)
      | None =>
          match may_create m l with
          | inl e => (inl e, m)
          | inr _ =>
              if can_encode h text then (inr tt, <[l := EFile (new_writable h) text]> m)
              else (inl UnicodeEncodeError, <[l := EFile (new_writable h) ""]> m)
          end
      end
  end.
Proof.
  unfold op_fs, mbind, PE_bind, open_w_fs, write_fs.
  destruct (locate true h wd p m) as [e|l]; [done|].
  destruct (m !! l) as [[w x|[] d|t]|] eqn:Hl; try done.
  - destruct (can_encode h text); [|done].
    rewrite lookup_insert_eq. simpl. by rewrite insert_insert_eq.
  - destruct (may_create m l) as [e|[]]; [done|].
    destruct (can_encode h text); [|done].
    rewrite lookup_insert_eq. simpl. by rewrite insert_insert_eq.
Qed.

Lemma px_op_fs_mkdir_eq h wd p m :
  op_fs h wd (OpMkdir p) m = mkdir_here true h wd p m.
Proof. done. Qed.

#[global] Arguments op_fs : simpl never.

(** Whatever its result, an operation changes at most the location it acts
    on, and the file system only grows. *)
Lemma px_op_fs_target h wd o m r m' :
  op_fs h wd o m = (r, m') →
  grows m m' ∧
  (m' = m ∨ ∃ t, target h wd o m = inr t ∧ ∀ loc, loc ≠ t → m' !! loc = m !! loc).
Proof.
  destruct o as [p|p text]; simpl.
  - rewrite px_op_fs_mkdir_eq, px_mkdir_here_eq.
    destruct (locate false h wd p m) as [e|l];
      [intros [= <- <-]; split; [apply px_grows_refl|by left]|].
    destruct (m !! l) as [e0|] eqn:Hl.
    + destruct (is_dir h wd p m); intros [= <- <-]; (split; [apply px_grows_refl|by left]).
    + destruct (may_create m l) as [e|[]];
        intros [= <- <-]; [split; [apply px_grows_refl|by left]|].
      split; [by apply px_grows_insert_fresh|]. right. exists l. split; [done|].
      intros loc Hne. by rewrite lookup_insert_ne.
  - rewrite px_write_file_eq.
    destruct (locate true h wd p m) as [e|l];
      [intros [= <- <-]; split; [apply px_grows_refl|by left]|].
    assert (Hframe : ∀ e', ∃ t, inr l = (inr t : error + list string) ∧
              ∀ loc, loc ≠ t → <[l := e']> m !! loc = m !! loc).
    { intros e'. exists l. split; [done|]. intros loc Hne. by rewrite lookup_insert_ne. }
    destruct (m !! l) as [[w x|[] d|t]|] eqn:Hl;
      try (intros [= <- <-]; split; [apply px_grows_refl|by left]).
    + destruct (can_encode h text); intros [= <- <-];
        (split; [by eapply px_grows_insert_file|right; apply Hframe]).
    + destruct (may_create m l) as [e|[]];
        [intros [= <- <-]; split; [apply px_grows_refl|by left]|].
      destruct (can_encode h text); intros [= <- <-];
        (split; [by apply px_grows_insert_fresh|right; apply Hframe]).
Qed.

Lemma px_op_fs_grows h wd o m r m' : op_fs h wd o m = (r, m') → grows m m'.
Proof. intros H. by apply px_op_fs_target in H as [? _]. Qed.

Lemma px_target_mono h wd o m m' t :
  grows m m' → target h wd o m = inr t → target h wd o m' = inr t.
Proof. destruct o; apply px_locate_mono. Qed.

Lemma px_exec_fs_grows h wd l : ∀ m r m', exec_fs h wd l m = (r, m') → grows m m'.
Proof.
  induction l as [|o l IH]; intros m r m'; simpl.
  - intros [= <- <-]. apply px_grows_refl.
  - unfold mbind, PE_bind. destruct (op_fs h wd o m) as [[e|[]] m1] eqn:Ho.
    + intros [= <- <-]. by eapply px_op_fs_grows.
    + intros H. eapply px_grows_trans; [by eapply px_op_fs_grows|by eapply IH].
Qed.

Lemma px_exec_fs_app h wd l1 l2 m :
  exec_fs h wd (l1 ++ l2) m = (exec_fs h wd l1;; exec_fs h wd l2) m.
Proof.
  revert m. induction l1 as [|o l1 IH]; intros m; simpl; [done|].
  unfold mbind, PE_bind in *. destruct (op_fs h wd o m) as [[e|[]] m1]; [done|].
  apply IH.
Qed.

(** ** The recorded run and the run on the file system *)

Lemma px_do_op_eq o w :
  do_op o w =
  let '(r, m) := op_fs (platform w) (cwd w) o (fs w) in
  (r, World m (cwd w) (platform w)
        (trace w ++ attempted (platform w) (cwd w) o (fs w))).
Proof.
  destruct o as [p|p text]; simpl.
  - reflexivity.
  - unfold op_fs, mbind, PE_bind, open_w, f_write, call.
    destruct (open_w_fs (platform w) (cwd w) p (fs w)) as [[e|f] m1]; simpl; [done|].
    destruct (write_fs (platform w) f text m1) as [r m2]; simpl.
    by rewrite <- app_assoc.
Qed.

Lemma px_exec_eq l : ∀ w,
  exec l w =
  let '(r, m) := exec_fs (platform w) (cwd w) l (fs w) in
  (r, World m (cwd w) (platform w)
        (trace w ++ run_events (platform w) (cwd w) l (fs w))).
Proof.
  induction l as [|o l IH]; intros [m wd h tr]; simpl.
  - unfold mret, PE_ret. by rewrite app_nil_r.
  - unfold mbind, PE_bind. rewrite px_do_op_eq. simpl.
    destruct (op_fs h wd o m) as [[e|[]] m1]; [by rewrite app_nil_r|].
    rewrite IH. simpl. destruct (exec_fs h wd l m1) as [r m2].
    by rewrite <- app_assoc.
Qed.

Lemma px_exec_app l1 l2 w : exec (l1 ++ l2) w = (exec l1;; exec l2) w.
Proof.
  revert w. induction l1 as [|o l1 IH]; intros w; simpl; [done|].
  unfold mbind, PE_bind in *. destruct (do_op o w) as [[e|[]] w1]; [done|].
  apply IH.
Qed.

Lemma px_exec_fs_of l w r w1 :
  exec l w = (r, w1) →
  exec_fs (platform w) (cwd w) l (fs w) = (r, fs w1)
  ∧ cwd w1 = cwd w ∧ platform w1 = platform w.
Proof.
  rewrite px_exec_eq. destruct (exec_fs (platform w) (cwd w) l (fs w)) as [r' m].
  by intros [= <- <-].
Qed.

(** ** The helper runs the operations of [walk_order], in that order *)

Lemma px_Admin_helper_exec T : ∀ P w,
  Admin.create_files_and_dirs P T w = exec (walk_order P T) w.
Proof.
  induction T as [|name content rest IHT IHrest] using dict_content_ind; [done|].
  intros P w. destruct content as [text|sub]; simpl.
  - unfold mbind, PE_bind.
    destruct (open_w (P // name) w) as [[e|f] w1]; [done|].
    destruct (f_write f text w1) as [[e|[]] w2]; [done|]. apply IHrest.
  - unfold mbind, PE_bind.
    destruct (Path_mkdir (P // name) false true w) as [[e|[]] w1]; [done|].
    rewrite px_exec_app, IHT. unfold mbind, PE_bind.
    destruct (exec _ w1) as [[e|[]] w2]; [done|]. apply IHrest.
Qed.

Lemma px_Web_helper_exec T : ∀ P w,
  Web.create_files_and_dirs P T w = exec (walk_order P T) w.
Proof.
  induction T as [|name content rest IHT IHrest] using dict_content_ind; [done|].
  intros P w. destruct content as [text|sub]; simpl.
  - unfold mbind, PE_bind.
    destruct (open_w (P // name) w) as [[e|f] w1]; [done|].
    destruct (f_write f text w1) as [[e|[]] w2]; [done|]. apply IHrest.
  - unfold mbind, PE_bind.
    destruct (Path_mkdir (P // name) false true w) as [[e|[]] w1]; [done|].
    rewrite px_exec_app, IHT. unfold mbind, PE_bind.
    destruct (exec _ w1) as [[e|[]] w2]; [done|]. apply IHrest.
Qed.

Lemma px_helper_exec s P T w :
  create_files_and_dirs s P T w = exec (walk_order P T) w.
Proof. destruct s; [apply px_Admin_helper_exec|apply px_Web_helper_exec]. Qed.

Lemma px_helper_fs s P T w r w1 :
  create_files_and_dirs s P T w = (r, w1) →
  exec_fs (platform w) (cwd w) (walk_order P T) (fs w) = (r, fs w1)
  ∧ cwd w1 = cwd w ∧ platform w1 = platform w.
Proof. rewrite px_helper_exec. apply px_exec_fs_of. Qed.

(** ** Runs of operation lists on the file system *)

(** A location that no operation of the run acts on keeps its entry,
    whether the run fails or not. *)
Lemma px_exec_fs_frame h wd l : ∀ m r m1 loc,
  exec_fs h wd l m = (r, m1) →
  (∀ o, o ∈ l → target h wd o m1 ≠ inr loc) →
  m1 !! loc = m !! loc.
Proof.
  induction l as [|o l IH]; intros m r m1 loc; simpl.
  - by intros [= <- <-].
  - unfold mbind, PE_bind. destruct (op_fs h wd o m) as [[e|[]] ma] eqn:Ho.
    + intros [= <- <-] Hloc.
      destruct (px_op_fs_target _ _ _ _ _ _ Ho) as [Hg [->|(t&Ht&Hframe)]]; [done|].
      apply Hframe. intros ->. apply (Hloc o); [by left|].
      by eapply px_target_mono.
    + intros Hrun Hloc.
      rewrite (IH _ _ _ _ Hrun) by (intros o' ?; apply Hloc; by right).
      destruct (px_op_fs_target _ _ _ _ _ _ Ho) as [Hg [->|(t&Ht&Hframe)]]; [done|].
      apply Hframe. intros ->. apply (Hloc o); [by left|].
      eapply px_target_mono; [|done].
      eapply px_grows_trans; [done|by eapply px_exec_fs_grows].
Qed.

(** A failing run is a successful run of the operations before the failing
    one, followed by the failing operation. *)
Lemma px_exec_fail_split l : ∀ w e w1,
  exec l w = (inl e, w1) →
  ∃ (before : list op) o after w',
    l = before ++ o :: after ∧
    exec before w = (inr tt, w') ∧
    do_op o w' = (inl e, w1).
Proof.
  induction l as [|o l IH]; intros w e w1; simpl; [done|].
  unfold mbind, PE_bind. destruct (do_op o w) as [[e'|[]] wa] eqn:Ho.
  - intros [= <- <-]. by exists [], o, l, w.
  - intros Hrun. destruct (IH _ _ _ Hrun) as (before&o'&after&w'&->&Hb&Hd).
    exists (o :: before), o', after, w'. split_and!; try done.
    simpl. unfold mbind, PE_bind. by rewrite Ho.
Qed.

(** ** Trees of plain names below a directory without links *)

Lemma px_no_links_sub m base base' :
  base `prefix_of` base' → no_links_below m base = true →
  no_links_below m base' = true.
Proof.
  rewrite !px_no_links_below_spec. intros Hp H loc t Hp'. apply H. by etrans.
Qed.

Lemma px_locate_ok follow h wd p m l :
  locate follow h wd p m = inr l → has_nul p = false ∧ path_ok h p = true.
Proof.
  unfold locate. destruct (has_nul p); [done|].
  by destruct (path_ok h p).
Qed.

(** Resolving a path and then further components from where it leads. *)
Lemma px_walk_app h m :
  ∀ hops cs cur base,
    walk hops h m cur cs true = inr base →
    ∃ hops', ∀ cs2 follow, cs2 ≠ [] →
      walk hops h m cur (cs ++ cs2) follow = walk hops' h m base cs2 follow.
Proof.
  induction hops as [hops IHhops] using lt_wf_ind.
  induction cs as [|c rest IH]; intros cur base; rewrite px_walk_unfold.
  { intros [= <-]. by exists hops. }
  destruct (m !! cur) as [[w [] |w d|t]|] eqn:Hc; try done.
  destruct (negb (name_ok h c)) eqn:Hn; [done|].
  destruct (decide (c = "..")) as [Hdd|Hdd].
  { intros H. destruct (IH _ _ H) as [hops' Hh]. exists hops'.
    intros cs2 follow Hcs2.
    change ((c :: rest) ++ cs2) with (c :: (rest ++ cs2)).
    rewrite px_walk_unfold, Hc, Hn.
    rewrite decide_True by done. by apply Hh. }
  destruct (m !! (cur ++ [c])) as [[w' x'|w' d'|t']|] eqn:Hnext.
  - intros H. destruct (IH _ _ H) as [hops' Hh]. exists hops'.
    intros cs2 follow Hcs2.
    change ((c :: rest) ++ cs2) with (c :: (rest ++ cs2)).
    rewrite px_walk_unfold, Hc, Hn.
    rewrite decide_False, Hnext by done. by apply Hh.
  - intros H. destruct (IH _ _ H) as [hops' Hh]. exists hops'.
    intros cs2 follow Hcs2.
    change ((c :: rest) ++ cs2) with (c :: (rest ++ cs2)).
    rewrite px_walk_unfold, Hc, Hn.
    rewrite decide_False, Hnext by done. by apply Hh.
  - simpl. destruct hops as [|hops0]; [done|]. intros H.
    destruct (IHhops hops0 ltac:(lia) _ _ _ H) as [hops' Hh]. exists hops'.
    intros cs2 follow Hcs2.
    change ((c :: rest) ++ cs2) with (c :: (rest ++ cs2)).
    rewrite px_walk_unfold, Hc, Hn.
    rewrite decide_False, Hnext by done.
    assert (bool_decide (rest ++ cs2 = []) = false) as ->.
    { apply bool_decide_eq_false. intros [_ ?]%app_eq_nil. done. }
    rewrite orb_true_r, app_assoc. by apply Hh.
  - intros H. destruct (IH _ _ H) as [hops' Hh]. exists hops'.
    intros cs2 follow Hcs2.
    change ((c :: rest) ++ cs2) with (c :: (rest ++ cs2)).
    rewrite px_walk_unfold, Hc, Hn.
    rewrite decide_False, Hnext by done. by apply Hh.
Qed.

(** Where a plain name leads from a directory, when no link stands
    there. *)
Definition child (h : host) (m : gmap (list string) entry)
    (base : list string) (k : string) : error + list string :=
  match m !! base with
  | Some (EDir _ true) =>
      if name_ok h k then inr (base ++ [k]) else inl NameTooLong
  | Some (EDir _ false) => inl PermissionError
  | Some (EFile _ _) | Some (ELink _) => inl NotADirectoryError
  | None => inl FileNotFoundError
  end.

Lemma px_walk_child h m hops base k follow :
  k ≠ ".." → (∀ t, m !! (base ++ [k]) ≠ Some (ELink t)) →
  walk hops h m base [k] follow = child h m base k.
Proof.
  intros Hdd Hnl. rewrite px_walk_unfold. unfold child.
  destruct (m !! base) as [[w [] |w d|t]|]; try done.
  destruct (name_ok h k); [|done]. simpl.
  rewrite decide_False by done.
  destruct (m !! (base ++ [k])) as [[w' x'|w' d'|t']|] eqn:Hnext;
    try by rewrite px_walk_unfold.
  by destruct (Hnl t').
Qed.

Lemma px_has_nul_child P k :
  plain_name k = true → has_nul (P // k) = has_nul P.
Proof.
  intros Hk. rewrite truediv_plain, has_nul_extend by done. simpl.
  apply plain_name_inv in Hk as (_&_&_&->). by rewrite orb_false_r.
Qed.

Lemma px_locate_child follow h wd P k m base :
  locate true h wd P m = inr base →
  plain_name k = true →
  (∀ t, m !! (base ++ [k]) ≠ Some (ELink t)) →
  locate follow h wd (P // k) m =
  if path_ok h (P // k) then child h m base k else inl NameTooLong.
Proof.
  intros HP Hk Hnl. pose proof (px_locate_ok _ _ _ _ _ _ HP) as [Hnul _].
  unfold locate in *. rewrite px_has_nul_child, Hnul in * by done.
  destruct (path_ok h (P // k)); [|done]. simpl.
  destruct (negb (path_ok h P)); [done|].
  rewrite truediv_plain by done. simpl.
  destruct (px_walk_app _ _ _ _ _ _ HP) as [hops' Hh].
  rewrite Hh by done. apply px_walk_child; [|done].
  by apply plain_name_inv in Hk as (_&_&?&_).
Qed.

Lemma px_child_inv h m base k l : child h m base k = inr l → l = base ++ [k].
Proof.
  unfold child. destruct (m !! base) as [[w [] |w d|t]|]; try done.
  destruct (name_ok h k); congruence.
Qed.

Lemma px_walk_plain h m ks : ∀ hops base follow l,
  no_links_below m base = true →
  Forall (λ c, plain_name c = true) ks →
  walk hops h m base ks follow = inr l → l = base ++ ks.
Proof.
  induction ks as [|c ks IH]; intros hops base follow l Hnl Hks;
    rewrite px_walk_unfold.
  - intros [= <-]. by rewrite app_nil_r.
  - apply Forall_cons in Hks as [Hc Hks].
    apply plain_name_inv in Hc as (_&_&Hdd&_).
    destruct (m !! base) as [[w [] |w d|t]|]; try done.
    destruct (negb (name_ok h c)); [done|].
    rewrite decide_False by done.
    assert (Hnl' : no_links_below m (base ++ [c]) = true).
    { eapply px_no_links_sub; [|done]. by apply prefix_app_r. }
    destruct (m !! (base ++ [c])) as [[w' x'|w' d'|t']|] eqn:Hnext.
    + intros H. apply IH in H; [|done..]. by rewrite H, <- app_assoc.
    + intros H. apply IH in H; [|done..]. by rewrite H, <- app_assoc.
    + rewrite px_no_links_below_spec in Hnl'. by destruct (Hnl' (base ++ [c]) t').
    + intros H. apply IH in H; [|done..]. by rewrite H, <- app_assoc.
Qed.

(** Below a located path without links, plain components denote the
    location reached by appending them. *)
Lemma px_locate_extend follow h wd P k ks m base l :
  locate true h wd P m = inr base →
  no_links_below m base = true →
  Forall (λ c, plain_name c = true) (k :: ks) →
  locate follow h wd (extend P (k :: ks)) m = inr l →
  l = base ++ k :: ks.
Proof.
  intros HP Hnl Hks. unfold locate in *.
  destruct (has_nul P); [done|]. destruct (negb (path_ok h P)); [done|].
  destruct (has_nul (extend P (k :: ks))); [done|].
  destruct (negb (path_ok h (extend P (k :: ks)))); [done|]. simpl.
  destruct (px_walk_app _ _ _ _ _ _ HP) as [hops' Hh].
  rewrite Hh by done. by apply px_walk_plain.
Qed.

(** A run on a tree of plain names changes nothing outside the subtrees
    named by the keys of the tree. *)
Lemma px_plain_run_frame h wd P T m r m1 base loc :
  plain_names T = true →
  locate true h wd P m = inr base →
  no_links_below m base = true →
  exec_fs h wd (walk_order P T) m = (r, m1) →
  (∀ k, k ∈ keys T → ¬ (base ++ [k]) `prefix_of` loc) →
  m1 !! loc = m !! loc.
Proof.
  intros HT HP Hnl Hrun Hloc. eapply px_exec_fs_frame; [done|].
  pose proof (px_exec_fs_grows _ _ _ _ _ _ Hrun) as Hg.
  intros o (k&ks&Hk&Hks&Ho)%walk_order_paths Hl; [|done].
  assert (Hl' : ∃ follow, locate follow h wd (extend P (k :: ks)) m1 = inr loc).
  { destruct o; simpl in Hl, Ho; rewrite Ho in Hl; eauto. }
  destruct Hl' as [follow Hl'].
  eapply px_locate_extend in Hl';
    [|by eapply px_locate_mono|by eapply px_no_links_grows|done].
  apply (Hloc k Hk). exists ks. by rewrite Hl', <- app_assoc.
Qed.

Lemma px_entry_locate follow h wd P name m base :
  locate true h wd P m = inr base →
  plain_name name = true →
  no_links_below m base = true →
  locate follow h wd (P // name) m =
  if reach h m P base name then inr (base ++ [name])
  else inl (reach_error h m P base name).
Proof.
  intros HP Hk Hnl. rewrite (px_locate_child _ _ _ _ _ _ base) by
    (try done; intros t; rewrite px_no_links_below_spec in Hnl;
     apply Hnl; by apply prefix_app_r).
  unfold reach, reach_error, child, searchable.
  destruct (path_ok h (P // name)); [|done]. simpl.
  destruct (m !! base) as [[w [] |w d|t]|]; done.
Qed.

(** [fits] looks only at the base directory and below the keys of the tree. *)
Lemma px_fits_agree h T : ∀ m m' P base,
  m !! base = m' !! base →
  (∀ k loc, k ∈ keys T → (base ++ [k]) `prefix_of` loc → m !! loc = m' !! loc) →
  fits h m P base T = fits h m' P base T.
Proof.
  induction T as [|name content rest IHT IHrest] using dict_content_ind; [done|].
  intros m m' P base Hbase Hunder. simpl.
  assert (Hhere : m !! (base ++ [name]) = m' !! (base ++ [name])).
  { apply (Hunder name); [by left|reflexivity]. }
  assert (Hcr : creatable m (base ++ [name]) = creatable m' (base ++ [name])).
  { unfold creatable, may_create. by rewrite removelast_last, Hbase. }
  assert (Hre : reach h m P base name = reach h m' P base name).
  { unfold reach, searchable. by rewrite Hbase. }
  rewrite (IHrest m m' P base) by (try done; intros k loc ?; apply Hunder; by right).
  f_equal. rewrite <- Hhere, <- Hcr, <- Hre. f_equal.
  destruct content as [text|sub]; [done|].
  destruct (m !! (base ++ [name])) as [[w x|w d|t]|] eqn:Hl; try done.
  - apply IHT; [congruence|]. intros k loc _ Hp. apply (Hunder name); [by left|].
    by eapply prefix_snoc_longer; rewrite <- app_assoc in Hp.
  - f_equal. apply IHT; [by rewrite !lookup_insert_eq|].
    intros k loc _ Hp. rewrite !lookup_insert.
    case_decide; [done|]. apply (Hunder name); [by left|].
    by eapply prefix_snoc_longer; rewrite <- app_assoc in Hp.
Qed.

(** After the operations of one entry, the remaining entries see the file
    system they would have seen without it. *)
Lemma px_fits_rest_unchanged h m ma P base name rest :
  name ∉ keys rest →
  (∀ loc, ¬ (base ++ [name]) `prefix_of` loc → ma !! loc = m !! loc) →
  fits h ma P base rest = fits h m P base rest.
Proof.
  intros Hname Hframe. apply px_fits_agree.
  - apply Hframe, snoc_not_prefix_self.
  - intros k loc Hk Hp. apply Hframe. intros Hp'.
    by rewrite (prefix_snoc_inj _ _ _ _ Hp' Hp) in Hname.
Qed.

Lemma px_is_dir_intro h wd p m l w x :
  locate true h wd p m = inr l → m !! l = Some (EDir w x) → is_dir h wd p m = true.
Proof. intros Hl Hm. unfold is_dir. by rewrite Hl, Hm. Qed.

(** ** Trees of plain names: when the run succeeds *)

Lemma px_plain_run_ok_iff h T : ∀ wd P m base,
  plain_names T = true → unique_keys T = true →
  locate true h wd P m = inr base →
  no_links_below m base = true →
  (exec_fs h wd (walk_order P T) m).1 = inr tt ↔ fits h m P base T = true.
Proof.
  induction T as [|name content rest IHT IHrest] using dict_content_ind; [done|].
  intros wd P m base (Hk&Hv&Hrest)%plain_names_cons
    (Hfresh&Huv&Hurest)%unique_keys_cons HP Hnl.
  pose proof (λ f, px_entry_locate f _ _ _ _ _ _ HP Hk Hnl) as Hloc.
  set (here := base ++ [name]) in *.
  assert (Hnolink : ∀ t, m !! here ≠ Some (ELink t)).
  { intros t. rewrite px_no_links_below_spec in Hnl. apply Hnl. by apply prefix_app_r. }
  (* the entries after this one, run from a state [ma] the entry left *)
  assert (Hlater : ∀ ma,
    grows m ma →
    (∀ loc, ¬ here `prefix_of` loc → ma !! loc = m !! loc) →
    (exec_fs h wd (walk_order P rest) ma).1 = inr tt ↔ fits h m P base rest = true).
  { intros ma Hg Hframe.
    rewrite <- (px_fits_rest_unchanged h m ma P base name rest Hfresh Hframe).
    eapply IHrest; [done|done|by eapply px_locate_mono|by eapply px_no_links_grows]. }
  assert (Hcr : creatable m here = true ↔ may_create m here = inr tt).
  { unfold creatable. destruct (may_create m here) as [e|[]]; split; by intros. }
  destruct content as [text|sub]; simpl; fold here.
  - (* a file entry *)
    unfold mbind, PE_bind. rewrite px_write_file_eq, (Hloc true).
    destruct (reach h m P base name); [|done]. simpl.
    destruct (m !! here) as [[w' x'|[] d|t]|] eqn:Hl; simpl; try done.
    + destruct (can_encode h text); [|done]. simpl.
      apply Hlater; [by eapply px_grows_insert_file|].
      intros loc Hloc'. rewrite lookup_insert_ne; [done|]. by intros <-.
    + unfold creatable.
      destruct (may_create m here) as [e|[]] eqn:Hc; simpl; [done|].
      destruct (can_encode h text); [|done]. simpl.
      apply Hlater; [by eapply px_grows_insert_fresh|].
      intros loc Hloc'. rewrite lookup_insert_ne; [done|]. by intros <-.
  - (* a directory entry *)
    unfold mbind, PE_bind. rewrite px_op_fs_mkdir_eq, px_mkdir_here_eq, (Hloc false).
    destruct (reach h m P base name) eqn:Hreach; [|done]. simpl.
    assert (Hsub : ∀ ma',
      grows m ma' →
      (∀ loc, ¬ here `prefix_of` loc → ma' !! loc = m !! loc) →
      (exec_fs h wd (walk_order (P // name) sub ++ walk_order P rest) ma').1 = inr tt
      ↔ fits h ma' (P // name) here sub && fits h m P base rest = true).
    { intros ma' Hg Hframe. rewrite px_exec_fs_app. unfold mbind, PE_bind.
      assert (Hhere' : locate true h wd (P // name) ma' = inr here).
      { eapply px_locate_mono; [done|]. by rewrite (Hloc true), ?Hreach. }
      assert (Hnl' : no_links_below ma' here = true).
      { eapply px_no_links_grows; [done|].
        eapply px_no_links_sub; [|done]. by apply prefix_app_r. }
      pose proof (IHT wd (P // name) ma' here Hv Huv Hhere' Hnl') as IHsub.
      destruct (exec_fs h wd (walk_order (P // name) sub) ma') as [[e|[]] ma] eqn:Hrun;
        simpl in *.
      - split; [done|]. intros [Hf _]%andb_true_iff. by apply IHsub in Hf.
      - assert (Hf : fits h ma' (P // name) here sub = true) by (by apply IHsub).
        rewrite Hf. simpl. apply Hlater.
        + eapply px_grows_trans; [done|by eapply px_exec_fs_grows].
        + intros loc Hloc'. rewrite <- Hframe by done.
          eapply px_plain_run_frame; [exact Hv|exact Hhere'|exact Hnl'|exact Hrun|].
          intros k _ Hp. apply Hloc'. eapply prefix_snoc_longer.
          unfold here in Hp. rewrite <- app_assoc in Hp. exact Hp. }
    destruct (m !! here) as [[w' x'|w' d|t]|] eqn:Hl; simpl.
    + rewrite (px_is_dir_intro _ _ _ _ here w' x'); [|by rewrite (Hloc true), ?Hreach|done].
      simpl. eapply Hsub; [apply px_grows_refl|done].
    + unfold is_dir. by rewrite (Hloc true), ?Hreach, Hl.
    + by destruct (Hnolink t).
    + unfold creatable.
      destruct (may_create m here) as [e|[]] eqn:Hc; simpl; [done|].
      eapply Hsub; [by eapply px_grows_insert_fresh|].
      intros loc Hloc'. rewrite lookup_insert_ne; [done|]. by intros <-.
Qed.

(** ** What a successful operation leaves *)

Lemma px_op_fs_ok h wd o m m' :
  op_fs h wd o m = (inr tt, m') →
  ∃ t, target h wd o m = inr t ∧
    match o with
    | OpMkdir p =>
        (m' = m ∧ is_dir h wd p m = true)
        ∨ (m !! t = None
           ∧ m' = <[t := EDir (new_writable h) (new_searchable h)]> m)
    | OpWriteFile p text =>
        ∃ w, m' = <[t := EFile w text]> m
             ∧ ((∃ d, m !! t = Some (EFile true d)) ∧ w = true
                ∨ m !! t = None ∧ w = new_writable h)
    end.
Proof.
  destruct o as [p|p text]; simpl.
  - rewrite px_op_fs_mkdir_eq, px_mkdir_here_eq.
    destruct (locate false h wd p m) as [e|l]; [done|].
    destruct (m !! l) as [e0|] eqn:Hl.
    + destruct (is_dir h wd p m) eqn:Hd; intros [= <-]. exists l. eauto.
    + destruct (may_create m l) as [e|[]]; intros [= <-]. exists l. eauto.
  - rewrite px_write_file_eq.
    destruct (locate true h wd p m) as [e|l]; [done|].
    destruct (m !! l) as [[w x|[] d|t]|] eqn:Hl; try done.
    + destruct (can_encode h text); intros [= <-]. exists l. split; [done|].
      exists true. eauto.
    + destruct (may_create m l) as [e|[]]; [done|].
      destruct (can_encode h text); intros [= <-]. exists l. split; [done|].
      exists (new_writable h). eauto.
Qed.

Lemma px_is_dir_located h wd p m :
  is_dir h wd p m = true →
  ∃ l w x, locate true h wd p m = inr l ∧ m !! l = Some (EDir w x).
Proof.
  unfold is_dir. destruct (locate true h wd p m) as [e|l]; [done|].
  destruct (m !! l) as [[w x|w d|t]|] eqn:Hl; try done. eauto.
Qed.


(** When [mkdir] on a path succeeds, the path is a directory. *)
Lemma px_mkdir_ok_is_dir h wd p m m' :
  op_fs h wd (OpMkdir p) m = (inr tt, m') → is_dir h wd p m' = true.
Proof.
  intros H. destruct (px_op_fs_ok _ _ _ _ _ H) as (t&Ht&[[-> Hd]|[Hn ->]]); [done|].
  simpl in Ht. eapply px_is_dir_intro; [|apply lookup_insert_eq].
  eapply px_locate_mono; [by apply px_grows_insert_fresh|].
  apply px_locate_follow_same; [done|]. intros t'. by rewrite Hn.
Qed.




(** ** Trees of plain names: what a successful run leaves *)



(** ** Concrete hosts, file systems and trees for the examples *)

(** A host that grants all permissions on what the process creates, whose
    default encoding takes every text (UTF-8), with the limits of Linux. *)
Definition linux_host : host := Host true true (λ _, true) 255 4096 40.

(** The same under [umask 0222]: what is created is not writable. *)
Definition umask_0222_host : host := Host false true (λ _, true) 255 4096 40.

Fixpoint all_ascii (s : string) : bool :=
  match s with
  | EmptyString => true
  | String c s' => Nat.ltb (nat_of_ascii c) 128 && all_ascii s'
  end.

(** The same as [linux_host] with ASCII as the default encoding. *)
Definition ascii_host : host := Host true true all_ascii 255 4096 40.

(** A root directory holding a directory [/srv]; the process runs in [/srv]. *)
Definition srv_fs : gmap (list string) entry :=
  <[ ["srv"] := EDir true true ]> {[ [] := EDir true true ]}.

(** The same with an empty writable directory [/srv/out]. *)
Definition out_fs : gmap (list string) entry :=
  <[ ["srv"; "out"] := EDir true true ]> srv_fs.

Definition in_srv (h : host) (m : gmap (list string) entry) : world :=
  World m ["srv"] h [].

(** ** The claims about the helper, on this platform *)




(** ** Running an operation again *)

Lemma px_op_locate_fail h wd o m e :
  target h wd o m = inl e → op_fs h wd o m = (inl e, m).
Proof.
  destruct o as [p|p text]; simpl; intros H.
  - by rewrite px_op_fs_mkdir_eq, px_mkdir_here_eq, H.
  - by rewrite px_write_file_eq, H.
Qed.

(** An operation whose path denotes [here], run from [m], and run again
    from a file system [mf] that has at [here] what the first run left
    there and, above [here], what [m] has: the second run changes nothing;
    it ends as the first did when the host lets the process write to the
    files it creates, and cannot succeed where the first failed. *)
Lemma px_op_rerun h wd o m ro ma mf here :
  (∀ f, locate f h wd (op_path o) m = inr here) →
  (∀ f, locate f h wd (op_path o) mf = inr here) →
  mf !! removelast here = m !! removelast here →
  (∀ t, m !! here ≠ Some (ELink t)) →
  op_fs h wd o m = (ro, ma) →
  mf !! here = ma !! here →
  ∃ r2, op_fs h wd o mf = (r2, mf)
        ∧ (r2 = inr tt → ro = inr tt)
        ∧ (new_writable h = true → r2 = ro).
Proof.
  intros Hm Hmf Hup Hnl. destruct o as [p|p text]; simpl in Hm, Hmf.
  - rewrite !px_op_fs_mkdir_eq, !px_mkdir_here_eq, (Hm false), (Hmf false).
    unfold is_dir. rewrite (Hm true), (Hmf true).
    unfold may_create. rewrite Hup.
    destruct (m !! here) as [[w x|w d|t]|] eqn:Hl.
    + intros [= <- <-] ->. rewrite Hl. eauto.
    + intros [= <- <-] ->. rewrite Hl. eauto.
    + by destruct (Hnl t).
    + destruct (m !! removelast here) as [[[] x|w d|t]|]; intros [= <- <-].
      * rewrite lookup_insert_eq. intros ->. eauto.
      * intros ->. rewrite Hl. eauto.
      * intros ->. rewrite Hl. eauto.
      * intros ->. rewrite Hl. eauto.
      * intros ->. rewrite Hl. eauto.
  - rewrite !px_write_file_eq, (Hm true), (Hmf true).
    unfold may_create. rewrite Hup.
    destruct (m !! here) as [[w x|[] d|t]|] eqn:Hl.
    + intros [= <- <-] ->. rewrite Hl. eauto.
    + destruct (can_encode h text) eqn:Hc; intros [= <- <-];
        rewrite lookup_insert_eq; intros Hf; rewrite Hf, ?Hc;
        (rewrite insert_id by done); eauto.
    + intros [= <- <-] ->. rewrite Hl. eauto.
    + by destruct (Hnl t).
    + destruct (m !! removelast here) as [[[] x|w d|t]|];
        try (intros [= <- <-] ->; rewrite Hl; by eauto).
      destruct (can_encode h text) eqn:Hc; intros [= <- <-];
        rewrite lookup_insert_eq; intros Hf; rewrite Hf;
        (destruct (new_writable h); [rewrite ?Hc, insert_id by done; by eauto|]);
        (eexists; split_and!; [done|done|done]).
Qed.

(** ** Trees of plain names: running the helper again *)

Lemma px_plain_rerun h T : ∀ wd P m base r m1 mf,
  plain_names T = true → unique_keys T = true →
  locate true h wd P m = inr base →
  no_links_below m base = true →
  exec_fs h wd (walk_order P T) m = (r, m1) →
  grows m1 mf →
  mf !! base = m !! base →
  (∀ k loc, k ∈ keys T → (base ++ [k]) `prefix_of` loc → mf !! loc = m1 !! loc) →
  ∃ r2, exec_fs h wd (walk_order P T) mf = (r2, mf)
        ∧ (r2 = inr tt → r = inr tt)
        ∧ (new_writable h = true → r2 = r).
Proof.
  induction T as [|name content rest IHT IHrest] using dict_content_ind.
  { intros wd P m base r m1 mf _ _ _ _ [= <- <-] _ _ _. by exists (inr tt). }
  intros wd P m base r m1 mf (Hk&Hv&Hrest)%plain_names_cons
    (Hfresh&Huv&Hurest)%unique_keys_cons HP Hnl Hrun Hgf Hbase Hsame.
  pose proof (px_exec_fs_grows _ _ _ _ _ _ Hrun) as Hg1.
  assert (Hgmf : grows m mf) by (by eapply px_grows_trans).
  pose proof (λ f, px_entry_locate f _ _ _ _ _ _ HP Hk Hnl) as Hloc.
  pose proof (λ f, px_entry_locate f _ _ _ _ _ _
    (px_locate_mono _ _ _ _ _ _ _ Hgmf HP) Hk (px_no_links_grows _ _ _ Hgmf Hnl)) as Hlocf.
  assert (Hre : reach h mf P base name = reach h m P base name).
  { unfold reach, searchable. by rewrite Hbase. }
  assert (Hree : reach_error h mf P base name = reach_error h m P base name).
  { unfold reach_error. by rewrite Hbase. }
  setoid_rewrite Hre in Hlocf. setoid_rewrite Hree in Hlocf.
  set (here := base ++ [name]) in *.
  assert (Hnolink : ∀ t, m !! here ≠ Some (ELink t)).
  { intros t. rewrite px_no_links_below_spec in Hnl. apply Hnl. by apply prefix_app_r. }
  set (o := match content with
            | Str text => OpWriteFile (P // name) text
            | Dict _ => OpMkdir (P // name)
            end).
  set (tail := match content with
               | Str _ => walk_order P rest
               | Dict sub => walk_order (P // name) sub ++ walk_order P rest
               end).
  assert (Hops : walk_order P (DCons name content rest) = o :: tail)
    by (by destruct content).
  assert (Hpath : op_path o = P // name) by (by destruct content).
  rewrite Hops in Hrun |- *. simpl in Hrun |- *. unfold mbind, PE_bind in Hrun |- *.
  destruct (reach h m P base name) eqn:Hreach.
  2:{ (* the entry is not reached: both runs fail in the path resolution *)
    assert (Ht : ∀ m', (∀ f, locate f h wd (P // name) m' =
                              inl (reach_error h m P base name)) →
                       op_fs h wd o m' = (inl (reach_error h m P base name), m')).
    { intros m' Hm'. apply px_op_locate_fail. unfold o.
      destruct content; simpl; apply Hm'. }
    rewrite (Ht m Hloc) in Hrun. injection Hrun as <- <-.
    rewrite (Ht mf Hlocf). eauto. }
  destruct (op_fs h wd o m) as [ro ma] eqn:Ho.
  pose proof (px_op_fs_target _ _ _ _ _ _ Ho) as [Hgo Hframe_o].
  assert (Hto : ∀ loc, loc ≠ here → ma !! loc = m !! loc).
  { destruct Hframe_o as [->|(t&Ht&Hfr)]; [done|].
    assert (t = here) as ->; [|done].
    unfold o in Ht. destruct content; simpl in Ht; rewrite Hloc in Ht; congruence. }
  (* the entries after this one, in the first run and in the second *)
  assert (Hlater : ∀ ma0 r0,
    grows m ma0 → (∀ loc, ¬ here `prefix_of` loc → ma0 !! loc = m !! loc) →
    exec_fs h wd (walk_order P rest) ma0 = (r0, m1) →
    (∀ loc, here `prefix_of` loc → m1 !! loc = ma0 !! loc)
    ∧ ∃ r2, exec_fs h wd (walk_order P rest) mf = (r2, mf)
            ∧ (r2 = inr tt → r0 = inr tt) ∧ (new_writable h = true → r2 = r0)).
  { intros ma0 r0 Hg0 Hfr0 Hrun0. split.
    - intros loc Hp.
      eapply (px_plain_run_frame h wd P rest ma0 _ m1 base loc Hrest);
        [by eapply px_locate_mono|by eapply px_no_links_grows|exact Hrun0|].
      intros k Hin Hp'. by rewrite (prefix_snoc_inj _ _ _ _ Hp' Hp) in Hin.
    - eapply (IHrest wd P ma0 base r0 m1 mf Hrest Hurest);
        [by eapply px_locate_mono|by eapply px_no_links_grows|exact Hrun0|done| |].
      + rewrite Hbase. symmetry. apply Hfr0, snoc_not_prefix_self.
      + intros k loc Hin. apply Hsame. by right. }
  assert (Hframe_here : ∀ loc, ¬ here `prefix_of` loc → ma !! loc = m !! loc).
  { intros loc Hloc'. apply Hto. by intros ->. }
  assert (Hup : mf !! removelast here = m !! removelast here).
  { unfold here. by rewrite removelast_last. }
  destruct content as [text|sub]; simpl in o, tail; subst o tail.
  - (* a file entry *)
    destruct ro as [e|[]].
    + injection Hrun as <- <-.
      destruct (px_op_rerun h wd (OpWriteFile (P // name) text) m _ _ mf here
        ltac:(intros f; by rewrite Hloc) ltac:(intros f; by rewrite Hlocf)
        Hup Hnolink Ho) as (r2&Hr2&Hok&Hsame2).
      { apply (Hsame name); [by left|done]. }
      rewrite Hr2. destruct r2 as [e2|[]]; [eauto|]. by specialize (Hok eq_refl).
    + destruct (Hlater ma r Hgo Hframe_here Hrun) as (Hhere1&r2'&Hr2'&Hok'&Hsame').
      destruct (px_op_rerun h wd (OpWriteFile (P // name) text) m _ _ mf here
        ltac:(intros f; by rewrite Hloc) ltac:(intros f; by rewrite Hlocf)
        Hup Hnolink Ho) as (r2&Hr2&Hok&Hsame2).
      { rewrite <- Hhere1 by done. apply (Hsame name); [by left|done]. }
      rewrite Hr2. destruct r2 as [e2|[]]; [|eauto].
      exists (inl e2). split_and!; [done|done|].
      intros Hw. by specialize (Hsame2 Hw).
  - (* a directory entry *)
    destruct ro as [e|[]].
    + injection Hrun as <- <-.
      destruct (px_op_rerun h wd (OpMkdir (P // name)) m _ _ mf here
        ltac:(intros f; by rewrite Hloc) ltac:(intros f; by rewrite Hlocf)
        Hup Hnolink Ho) as (r2&Hr2&Hok&Hsame2).
      { apply (Hsame name); [by left|done]. }
      rewrite Hr2. destruct r2 as [e2|[]]; [eauto|]. by specialize (Hok eq_refl).
    + rewrite px_exec_fs_app in Hrun. unfold mbind, PE_bind in Hrun.
      destruct (exec_fs h wd (walk_order (P // name) sub) ma) as [rs mb] eqn:Hsub.
      pose proof (px_exec_fs_grows _ _ _ _ _ _ Hsub) as Hgs.
      pose proof (px_mkdir_ok_is_dir _ _ _ _ _ Ho) as Hd.
      destruct (px_is_dir_located _ _ _ _ Hd) as (l&w'&x'&Hl&Hmd).
      assert (Hhere_ma : locate true h wd (P // name) ma = inr here).
      { eapply px_locate_mono; [done|]. by rewrite Hloc. }
      assert (l = here) as -> by congruence.
      assert (Hnl_ma : no_links_below ma here = true).
      { eapply px_no_links_grows; [done|].
        eapply px_no_links_sub; [|done]. by apply prefix_app_r. }
      (* the subtree leaves everything outside [here] as it is *)
      assert (Hframe_b : ∀ loc, ¬ here `prefix_of` loc → mb !! loc = m !! loc).
      { intros loc Hloc'. rewrite <- Hframe_here by done.
        eapply px_plain_run_frame; [exact Hv|exact Hhere_ma|exact Hnl_ma|exact Hsub|].
        intros k _ Hp. apply Hloc'. eapply prefix_snoc_longer.
        unfold here in Hp. rewrite <- app_assoc in Hp. exact Hp. }
      assert (Hmb1 : grows mb m1 ∧ ∀ loc, here `prefix_of` loc → m1 !! loc = mb !! loc).
      { destruct rs as [e|[]].
        - injection Hrun as <- <-. split; [apply px_grows_refl|done].
        - split; [by eapply px_exec_fs_grows|].
          eapply Hlater; [by eapply px_grows_trans|done|done]. }
      destruct Hmb1 as [Hgb1 Hhere1].
      destruct (px_op_rerun h wd (OpMkdir (P // name)) m _ _ mf here
        ltac:(intros f; by rewrite Hloc) ltac:(intros f; by rewrite Hlocf)
        Hup Hnolink Ho) as (r2&Hr2&_&_).
      { rewrite (Hsame name), Hhere1 by (try done; by left).
        rewrite Hmd. eapply px_grows_dir; [exact Hgs|done]. }
      rewrite Hr2.
      assert (r2 = inr tt) as ->.
      { rewrite px_op_fs_mkdir_eq, px_mkdir_here_eq, (Hlocf false) in Hr2.
        assert (Hmf_here : mf !! here = Some (EDir w' x')).
        { rewrite (Hsame name), Hhere1 by (try done; by left).
          eapply px_grows_dir; [exact Hgs|done]. }
        rewrite Hmf_here in Hr2. unfold is_dir in Hr2.
        rewrite (Hlocf true), Hmf_here in Hr2. congruence. }
      rewrite px_exec_fs_app. unfold mbind, PE_bind.
      destruct (IHT wd (P // name) ma here rs mb mf Hv Huv Hhere_ma Hnl_ma Hsub)
        as (r2s&Hr2s&Hoks&Hsames).
      { by eapply px_grows_trans. }
      { rewrite (Hsame name), Hhere1 by (try done; by left).
        rewrite Hmd. eapply px_grows_dir; [exact Hgs|done]. }
      { intros k loc _ Hp.
        assert (here `prefix_of` loc).
        { unfold here in Hp. rewrite <- app_assoc in Hp.
          by eapply prefix_snoc_longer. }
        rewrite (Hsame name), Hhere1 by (try done; by left). done. }
      rewrite Hr2s. destruct r2s as [e2|[]].
      * exists (inl e2). split_and!; [done|done|].
        intros Hw. specialize (Hsames Hw). subst rs. by injection Hrun as <- <-.
      * specialize (Hoks eq_refl). subst rs.
        destruct (Hlater mb r (px_grows_trans _ _ _ Hgo Hgs) Hframe_b Hrun)
          as (_&r2'&Hr2'&Hok'&Hsame').
        eauto.
Qed.

(** C2 (as amended): for a tree whose keys are distinct single path
    components and a base path below whose location no symbolic link stands,
    running the helper a second time, from the file system the first run
    left, leaves that file system as it is: directories that exist are no
    error and stay, files are rewritten with the content they have.  The
    second run cannot succeed where the first failed, and it ends as the
    first did (success, or the same exception) when the host lets the
    process write to the files it creates. *)
Theorem second_run_changes_nothing (s : script) (P : Path) (T : dict)
    (w : world) (base : list string) :
  plain_names T = true → unique_keys T = true →
  locate true (platform w) (cwd w) P (fs w) = inr base →
  no_links_below (fs w) base = true →
  let '(r1, w1) := create_files_and_dirs s P T w in
  let '(r2, w2) := create_files_and_dirs s P T w1 in
  fs w2 = fs w1
  ∧ (r2 = inr tt → r1 = inr tt)
  ∧ (new_writable (platform w) = true → r2 = r1).
Proof.
  intros Hplain Huniq HP Hnl.
  destruct (create_files_and_dirs s P T w) as [r1 w1] eqn:H1.
  destruct (create_files_and_dirs s P T w1) as [r2 w2] eqn:H2.
  apply px_helper_fs in H1 as (H1&Hwd&Hh), H2 as (H2&_&_).
  rewrite Hwd, Hh in H2.
  destruct (px_plain_rerun _ _ _ _ _ _ _ _ (fs w1) Hplain Huniq HP Hnl H1)
    as (r2'&Hr2&Hok&Hsame); [apply px_grows_refl| |done|].
  - eapply px_plain_run_frame; [exact Hplain|exact HP|exact Hnl|exact H1|].
    intros k _. apply snoc_not_prefix_self.
  - rewrite H2 in Hr2. injection Hr2 as Hr Hf. subst r2'. by rewrite Hf.
Qed.

(** The example tree twice in an empty directory; and under [umask 0222],
    where the second run stops at the first file, which it may not open. *)
Lemma second_run_changes_nothing_witness :
  (let w1 := (create_files_and_dirs admin (PathOf "out") example_tree
                (in_srv linux_host out_fs)).2 in
   let '(r2, w2) := create_files_and_dirs admin (PathOf "out") example_tree w1 in
   fs w2 = fs w1 ∧ r2 = inr tt)
  ∧ (let w1 := (create_files_and_dirs admin (PathOf "out") example_tree
                  (in_srv umask_0222_host out_fs)).2 in
     let '(r2, w2) := create_files_and_dirs admin (PathOf "out") example_tree w1 in
     fs w2 = fs w1 ∧ r2 = inl PermissionError).
Proof.
  split.
  - pose proof (second_run_changes_nothing admin (PathOf "out") example_tree
      (in_srv linux_host out_fs) ["srv"; "out"]
      ltac:(by vm_compute) ltac:(by vm_compute)
      ltac:(by vm_compute) ltac:(by vm_compute)) as H.
    destruct (create_files_and_dirs admin (PathOf "out") example_tree
                (in_srv linux_host out_fs)) as [r1 w1] eqn:H1.
    cbv beta iota zeta in H |- *. cbn [snd].
    destruct (create_files_and_dirs admin (PathOf "out") example_tree w1)
      as [r2 w2] eqn:H2.
    destruct H as (Hfs&_&Hr). split; [done|].
    rewrite Hr by done. change r1 with ((r1, w1).1). rewrite <- H1. by vm_compute.
  - pose proof (second_run_changes_nothing admin (PathOf "out") example_tree
      (in_srv umask_0222_host out_fs) ["srv"; "out"]
      ltac:(by vm_compute) ltac:(by vm_compute)
      ltac:(by vm_compute) ltac:(by vm_compute)) as H.
    destruct (create_files_and_dirs admin (PathOf "out") example_tree
                (in_srv umask_0222_host out_fs)) as [r1 w1] eqn:H1.
    cbv beta iota zeta in H |- *. cbn [snd].
    destruct (create_files_and_dirs admin (PathOf "out") example_tree w1)
      as [r2 w2] eqn:H2.
    destruct H as (Hfs&_&_). split; [done|].
    change r2 with ((r2, w2).1). rewrite <- H2.
    change w1 with ((r1, w1).2). rewrite <- H1. by vm_compute.
Defined.

(** A tree in which two keys name the same file, and a third key between
    them names another. *)
Definition rewritten_tree : dict :=
  dict_of [("a", Str "1"); ("b", Str "x"); ("./a", Str "2")].

(** [/srv/out] holds a file [a] the process may write. *)
Definition out_a_fs : gmap (list string) entry :=
  <[ ["srv"; "out"; "a"] := EFile true "old" ]> out_fs.

(** C2 as stated fails.  Under [umask 0222] the tree
    [{"a": "1", "b": "x", "./a": "2"}] is materialized without exception in
    a directory that holds a writable file [a]: [a] ends with ["2"], and the
    new file [b] is not writable.  The second run writes ["1"] to [a] and
    then fails to open [b]: it has not ended as the first, [b] has not been
    rewritten, and the file system is not the one the first run left. *)
Lemma second_run_differs_as_stated :
  let w := in_srv umask_0222_host out_a_fs in
  let '(r1, w1) := create_files_and_dirs admin (PathOf "out") rewritten_tree w in
  let '(r2, w2) := create_files_and_dirs admin (PathOf "out") rewritten_tree w1 in
  unique_keys rewritten_tree = true
  ∧ r1 = inr tt
  ∧ fs w1 !! ["srv"; "out"; "a"] = Some (EFile true "2")
  ∧ fs w1 !! ["srv"; "out"; "b"] = Some (EFile false "x")
  ∧ r2 = inl PermissionError
  ∧ fs w2 !! ["srv"; "out"; "a"] = Some (EFile true "1").
Proof. by vm_compute. Qed.

(** ** Entries the tree does not name *)

(** The key sequences that name the entries of a tree. *)
Fixpoint key_paths (T : dict) : list (list string) :=
  match T with
  | DNil => []
  | DCons name (Str _) rest => [name] :: key_paths rest
  | DCons name (Dict sub) rest =>
      [name] :: ((name ::.) <$> key_paths sub) ++ key_paths rest
  end.

Lemma px_walk_order_key_paths T : ∀ P o,
  plain_names T = true → o ∈ walk_order P T →
  ∃ k ks, (k :: ks) ∈ key_paths T ∧ Forall (λ c, plain_name c = true) (k :: ks)
          ∧ op_path o = extend P (k :: ks).
Proof.
  induction T as [|name content rest IHT IHrest] using dict_content_ind.
  - intros P o _ Hin. by apply elem_of_nil in Hin.
  - intros P o (Hk&Hv&Hrest)%plain_names_cons Hin.
    assert (Hlater : o ∈ walk_order P rest →
      ∃ k ks, (k :: ks) ∈ key_paths (DCons name content rest)
              ∧ Forall (λ c, plain_name c = true) (k :: ks)
              ∧ op_path o = extend P (k :: ks)).
    { intros Ho. destruct (IHrest _ _ Hrest Ho) as (k&ks&?&?&?).
      exists k, ks. split_and!; try done.
      destruct content; simpl; [by right|].
      right. apply elem_of_app. by right. }
    destruct content as [text|sub]; simpl in Hin.
    + apply elem_of_cons in Hin as [->|Hin]; [|by apply Hlater].
      exists name, []. split_and!; [by left|by repeat constructor|].
      simpl. by apply truediv_plain.
    + apply elem_of_cons in Hin as [->|Hin].
      { exists name, []. split_and!; [by left|by repeat constructor|].
        simpl. by apply truediv_plain. }
      apply elem_of_app in Hin as [Hin|Hin]; [|by apply Hlater].
      destruct (IHT _ _ Hv Hin) as (k&ks&Hks_in&Hks&Ho).
      exists name, (k :: ks). split_and!; [|by constructor|].
      * simpl. right. apply elem_of_app. left.
        by apply (list_elem_of_fmap_2 (name ::.)).
      * by rewrite Ho, truediv_plain, extend_extend.
Qed.

(** C3 (as amended): nothing is deleted, no entry changes its kind and no
    link is made; an entry at a location that no entry path of the tree
    denotes, directly or through symbolic links, in the file system the run
    leaves, is unchanged; and for a tree whose keys are single path
    components and a base path below whose location no symbolic link
    stands, every entry is unchanged whose location is not that of a key
    path of the tree below the base. *)
Theorem unnamed_entries_are_kept (s : script) (P : Path) (T : dict)
    (w : world) (loc : list string) :
  let w1 := (create_files_and_dirs s P T w).2 in
  grows (fs w) (fs w1)
  ∧ ((∀ p follow, p ∈ entry_paths P T →
        locate follow (platform w) (cwd w) p (fs w1) ≠ inr loc) →
     fs w1 !! loc = fs w !! loc)
  ∧ (∀ base,
       plain_names T = true →
       locate true (platform w) (cwd w) P (fs w) = inr base →
       no_links_below (fs w) base = true →
       (∀ ks, ks ∈ key_paths T → loc ≠ base ++ ks) →
       fs w1 !! loc = fs w !! loc).
Proof.
  destruct (create_files_and_dirs s P T w) as [r w1] eqn:Hrun. simpl.
  apply px_helper_fs in Hrun as (Hrun&_&_).
  pose proof (px_exec_fs_grows _ _ _ _ _ _ Hrun) as Hg.
  split_and!; [done| |].
  - intros Hloc. eapply px_exec_fs_frame; [done|].
    intros o Ho Ht. destruct o as [p|p text]; simpl in Ht.
    + apply (Hloc p false); [|done].
      by apply (list_elem_of_fmap_2 op_path _ (OpMkdir p)).
    + apply (Hloc p true); [|done].
      by apply (list_elem_of_fmap_2 op_path _ (OpWriteFile p text)).
  - intros base Hplain HP Hnl Hloc. eapply px_exec_fs_frame; [done|].
    intros o (k&ks&Hk&Hks&Ho)%px_walk_order_key_paths Hl; [|done].
    assert (Hl' : ∃ follow,
      locate follow (platform w) (cwd w) (extend P (k :: ks)) (fs w1) = inr loc).
    { destruct o; simpl in Hl, Ho; rewrite Ho in Hl; eauto. }
    destruct Hl' as [follow Hl'].
    eapply px_locate_extend in Hl';
      [|by eapply px_locate_mono|by eapply px_no_links_grows|done].
    by apply (Hloc (k :: ks)).
Qed.

(** [/srv/out] holds a file [victim.txt] and a symbolic link [a.txt] to
    it. *)
Definition link_fs : gmap (list string) entry :=
  <[ ["srv"; "out"; "a.txt"] := ELink (PathOf "victim.txt") ]>
    (<[ ["srv"; "out"; "victim.txt"] := EFile true "precious" ]> out_fs).

(** C3 as stated fails.  Where the key ["a.txt"] is a symbolic link to
    [victim.txt], the run is without exception and writes the string of the
    key into [victim.txt], a file below the base path that no key names. *)
Lemma a_link_leads_the_helper_elsewhere :
  let T := dict_of [("a.txt", Str "hi")] in
  let w := in_srv linux_host link_fs in
  let '(r, w1) := create_files_and_dirs admin (PathOf "out") T w in
  r = inr tt
  ∧ entry_paths (PathOf "out") T = [PathOf "out" // "a.txt"]
  ∧ key_paths T = [["a.txt"]]
  ∧ fs w !! ["srv"; "out"; "victim.txt"] = Some (EFile true "precious")
  ∧ fs w1 !! ["srv"; "out"; "victim.txt"] = Some (EFile true "hi")
  ∧ fs w1 !! ["srv"; "out"; "a.txt"] = Some (ELink (PathOf "victim.txt")).
Proof. by vm_compute. Qed.

(** ** Failure *)

(** An operation that fails has changed nothing, unless it is a file
    entry whose [open] succeeded and whose [write] raised: then the file
    is there and empty. *)
Lemma px_op_fs_fail h wd o m e m' :
  op_fs h wd o m = (inl e, m') →
  m' = m
  ∨ ∃ p text t wr,
      o = OpWriteFile p text ∧ e = UnicodeEncodeError
      ∧ can_encode h text = false
      ∧ locate true h wd p m = inr t
      ∧ m' = <[t := EFile wr ""]> m.
Proof.
  destruct o as [p|p text].
  - rewrite px_op_fs_mkdir_eq, px_mkdir_here_eq.
    destruct (locate false h wd p m) as [e'|l]; [intros [= <- <-]; by left|].
    destruct (m !! l) as [e0|].
    + destruct (is_dir h wd p m); intros [= <- <-]. by left.
    + destruct (may_create m l) as [e'|[]]; intros [= <- <-]. by left.
  - rewrite px_write_file_eq.
    destruct (locate true h wd p m) as [e'|l] eqn:Hl; [intros [= <- <-]; by left|].
    destruct (m !! l) as [[w x|[] d|t]|]; try (intros [= <- <-]; by left).
    + destruct (can_encode h text) eqn:Hc; intros [= <- <-].
      right. by exists p, text, l, true.
    + destruct (may_create m l) as [e'|[]]; [intros [= <- <-]; by left|].
      destruct (can_encode h text) eqn:Hc; intros [= <- <-].
      right. by exists p, text, l, (new_writable h).
Qed.

Lemma px_attempted_ok h wd o m m' :
  op_fs h wd o m = (inr tt, m') → attempted h wd o m = op_events o.
Proof.
  destruct o as [p|p text]; [done|].
  unfold op_fs, attempted, mbind, PE_bind.
  by destruct (open_w_fs h wd p m) as [[e|f] m1].
Qed.

Lemma px_run_events_ok h wd l : ∀ m m1,
  exec_fs h wd l m = (inr tt, m1) → run_events h wd l m = flat_map op_events l.
Proof.
  induction l as [|o l IH]; intros m m1; simpl; [done|].
  unfold mbind, PE_bind. destruct (op_fs h wd o m) as [[e|[]] ma] eqn:Ho; [done|].
  intros H. by rewrite (px_attempted_ok _ _ _ _ _ Ho), (IH _ _ H).
Qed.

Lemma px_create_structure_unfold s w :
  create_structure s w =
  (Path_mkdir (base_dir s) true true;;
   create_files_and_dirs s (base_dir s) (structure s);;
   print ("Directory structure created successfully at " +:+ path_str (base_dir s))) w.
Proof. by destruct s. Qed.

(** C7 (as amended): a run of the helper that ends with an exception has
    stopped at the operation of some entry; the operations of the entries
    before it have all succeeded and nothing they did is undone; no later
    operation has run; the failing operation has changed nothing, unless it
    is a file entry whose [open] succeeded and whose [write] raised, which
    leaves the file at its path in place and empty; and [create_structure]
    ends with that exception too. *)
Theorem failure_keeps_partial_tree (s : script) (P : Path) (T : dict)
    (w : world) (e : error) (w1 : world) :
  create_files_and_dirs s P T w = (inl e, w1) →
  (∃ (before : list op) o after w',
     walk_order P T = before ++ o :: after ∧
     exec before w = (inr tt, w') ∧
     do_op o w' = (inl e, w1) ∧
     (fs w1 = fs w'
      ∨ ∃ p text t wr,
          o = OpWriteFile p text ∧ e = UnicodeEncodeError
          ∧ can_encode (platform w) text = false
          ∧ locate true (platform w) (cwd w) p (fs w') = inr t
          ∧ fs w1 = <[t := EFile wr ""]> (fs w')) ∧
     trace w1 = trace w ++ flat_map op_events before
                  ++ attempted (platform w) (cwd w) o (fs w'))
  ∧ (∀ w0, P = base_dir s → T = structure s →
       Path_mkdir P true true w0 = (inr tt, w) →
       create_structure s w0 = (inl e, w1)).
Proof.
  intros H. split.
  - rewrite px_helper_exec in H.
    destruct (px_exec_fail_split _ _ _ _ H) as (before&o&after&w'&Hl&Hb&Ho).
    exists before, o, after, w'. split_and!; try done.
    + pose proof Hb as Hb'. apply px_exec_fs_of in Hb' as (_&Hwd&Hh).
      rewrite px_do_op_eq in Ho. rewrite Hwd, Hh in Ho.
      destruct (op_fs (platform w) (cwd w) o (fs w')) as [r' m'] eqn:Hop.
      injection Ho as -> <-. simpl. by apply px_op_fs_fail in Hop.
    + pose proof Hb as Hb'. rewrite px_exec_eq in Hb'.
      destruct (exec_fs (platform w) (cwd w) before (fs w)) as [r m] eqn:Hbf.
      injection Hb' as -> <-. rewrite px_do_op_eq in Ho. simpl in Ho.
      destruct (op_fs (platform w) (cwd w) o m) as [r' m'].
      injection Ho as -> <-. simpl.
      by rewrite (px_run_events_ok _ _ _ _ _ Hbf), <- app_assoc.
  - intros w0 -> -> Hb. rewrite px_create_structure_unfold.
    unfold mbind, PE_bind. by rewrite Hb, H.
Qed.

(** The example tree, with a regular file in the way of the directory [b]:
    [a.txt] has been written, [b/c.txt] has not. *)
Lemma failure_keeps_partial_tree_witness :
  let w := in_srv linux_host
             (<[ ["srv"; "out"; "b"] := EFile true "in the way" ]> out_fs) in
  let w1 := (create_files_and_dirs admin (PathOf "out") example_tree w).2 in
  create_files_and_dirs admin (PathOf "out") example_tree w = (inl FileExistsError, w1)
  ∧ fs w1 !! ["srv"; "out"; "a.txt"] = Some (EFile true "hi")
  ∧ fs w1 !! ["srv"; "out"; "b"; "c.txt"] = None
  ∧ ∃ (before : list op) o after w',
      walk_order (PathOf "out") example_tree = before ++ o :: after ∧
      exec before w = (inr tt, w') ∧
      do_op o w' = (inl FileExistsError, w1).
Proof.
  intros w w1.
  assert (H : create_files_and_dirs admin (PathOf "out") example_tree w
              = (inl FileExistsError, w1)) by (by vm_compute).
  split; [exact H|]. split; [by vm_compute|]. split; [by vm_compute|].
  destruct (proj1 (failure_keeps_partial_tree _ _ _ _ _ _ H))
    as (before&o&after&w'&?&?&?&_).
  by exists before, o, after, w'.
Defined.

(** A text that ASCII does not encode. *)
Definition e_acute : string := String (ascii_of_nat 233) "".

(** Two keys that name the same file; the string of the second cannot be
    encoded. *)
Definition lossy_tree : dict :=
  dict_of [("a", Str "1"); ("./a", Str e_acute)].

(** C7 as stated fails.  On a host whose default encoding is ASCII the
    first entry of [{"a": "1", "./a": "é"}] writes ["1"] into the file [a];
    the second entry opens the same file, which empties it, and raises in
    [write].  What the entry before the failing one did has not
    persisted. *)
Lemma failing_entry_empties_earlier_file :
  let w := in_srv ascii_host out_fs in
  let wa := (exec [OpWriteFile (PathOf "out" // "a") "1"] w).2 in
  let '(r, w1) := create_files_and_dirs admin (PathOf "out") lossy_tree w in
  unique_keys lossy_tree = true
  ∧ walk_order (PathOf "out") lossy_tree
    = [OpWriteFile (PathOf "out" // "a") "1";
       OpWriteFile (PathOf "out" // "./a") e_acute]
  ∧ fs wa !! ["srv"; "out"; "a"] = Some (EFile true "1")
  ∧ r = inl UnicodeEncodeError
  ∧ fs w1 !! ["srv"; "out"; "a"] = Some (EFile true "").
Proof. by vm_compute. Qed.

(** ** Making the base directory *)

Lemma px_os_mkdir_ok_is_dir h wd p m m' :
  os_mkdir h wd p m = (inr tt, m') → is_dir h wd p m' = true.
Proof.
  unfold os_mkdir. destruct (locate false h wd p m) as [e|l] eqn:Hl; [done|].
  destruct (m !! l) eqn:Hm; [done|].
  destruct (may_create m l) as [e|[]]; [done|]. intros [= <-].
  eapply px_is_dir_intro; [|apply lookup_insert_eq].
  eapply px_locate_mono; [by apply px_grows_insert_fresh|].
  apply px_locate_follow_same; [done|]. intros t. by rewrite Hm.
Qed.

Lemma px_mkdir_here_ok_is_dir exist_ok h wd p m m' :
  mkdir_here exist_ok h wd p m = (inr tt, m') → is_dir h wd p m' = true.
Proof.
  unfold mkdir_here. destruct (os_mkdir h wd p m) as [[e|[]] m0] eqn:Ho.
  - destruct (decide (e = FileNotFoundError)); [done|].
    destruct (is_OSError e && exist_ok && is_dir h wd p m0) eqn:Hc; [|done].
    intros [= <-]. by apply andb_true_iff in Hc as [_ ?].
  - intros [= <-]. by eapply px_os_mkdir_ok_is_dir.
Qed.

Lemma px_mkdir_fs_ok_is_dir parents exist_ok h wd p m m' :
  mkdir_fs parents exist_ok h wd p m = (inr tt, m') → is_dir h wd p m' = true.
Proof.
  unfold mkdir_fs. destruct parents; [|apply px_mkdir_here_ok_is_dir].
  assert (Hp : mkPath (anchored p) (rev (rev (parts p))) = p).
  { rewrite rev_involutive. by destruct p. }
  revert Hp. generalize (rev (parts p)) as rparts. intros rparts Hp.
  destruct rparts as [|c up]; simpl in *; rewrite Hp.
  - destruct (os_mkdir h wd p m) as [[e|[]] m0] eqn:Ho.
    + destruct (decide (e = FileNotFoundError)); [done|].
      destruct (is_OSError e && exist_ok && is_dir h wd p m0) eqn:Hc; [|done].
      intros [= <-]. by apply andb_true_iff in Hc as [_ ?].
    + intros [= <-]. by eapply px_os_mkdir_ok_is_dir.
  - destruct (os_mkdir h wd p m) as [[e|[]] m0] eqn:Ho.
    + destruct (decide (e = FileNotFoundError)).
      * destruct (mkdir_up true h wd (anchored p) up m0) as [[e'|[]] m1]; [done|].
        apply px_mkdir_here_ok_is_dir.
      * destruct (is_OSError e && exist_ok && is_dir h wd p m0) eqn:Hc; [|done].
        intros [= <-]. by apply andb_true_iff in Hc as [_ ?].
    + intros [= <-]. by eapply px_os_mkdir_ok_is_dir.
Qed.

Lemma px_Path_mkdir_inv p parents exist_ok w r w0 :
  Path_mkdir p parents exist_ok w = (r, w0) →
  mkdir_fs parents exist_ok (platform w) (cwd w) p (fs w) = (r, fs w0)
  ∧ cwd w0 = cwd w ∧ platform w0 = platform w.
Proof.
  unfold Path_mkdir, call.
  destruct (mkdir_fs parents exist_ok (platform w) (cwd w) p (fs w)) as [r' m].
  by intros [= <- <-].
Qed.

(** C6 (as amended): [create_structure] fails when the base directory
    cannot be made; when it has been made, it is a directory, and, provided
    no symbolic link stands at or below it, [create_structure] ends
    without exception exactly when the host and what is below the base
    directory fit the tree: every entry can be reached, a directory or
    nothing stands where a directory is expected, a regular file the
    process may write or nothing where a file is expected, and what is
    missing can be created where it is to be.  Names and contents are not
    looked at. *)
Theorem create_structure_outcome (s : script) (w : world) :
  let '(r0, w0) := Path_mkdir (base_dir s) true true w in
  match r0 with
  | inl e => create_structure s w = (inl e, w0)
  | inr _ =>
      is_dir (platform w) (cwd w) (base_dir s) (fs w0) = true
      ∧ ∀ base,
          locate true (platform w) (cwd w) (base_dir s) (fs w0) = inr base →
          no_links_below (fs w0) base = true →
          ((create_structure s w).1 = inr tt
           ↔ fits (platform w) (fs w0) (base_dir s) base (structure s) = true)
  end.
Proof.
  rewrite px_create_structure_unfold. unfold mbind, PE_bind.
  destruct (Path_mkdir (base_dir s) true true w) as [[e|[]] w0] eqn:Hb; [done|].
  apply px_Path_mkdir_inv in Hb as (Hb&Hwd&Hh).
  split; [by eapply px_mkdir_fs_ok_is_dir|].
  intros base HP Hnl.
  destruct (structure_plain s) as [Hplain Huniq].
  rewrite <- (px_plain_run_ok_iff (platform w) (structure s) (cwd w) (base_dir s)
    (fs w0) base) by done.
  destruct (create_files_and_dirs s (base_dir s) (structure s) w0) as [r w1] eqn:Hrun.
  apply px_helper_fs in Hrun as [Hrun _]. rewrite Hwd, Hh in Hrun. rewrite Hrun.
  by destruct r as [e|[]].
Qed.

(** [/srv/apps/admin] exists and holds a directory named [.env.example];
    there is no regular file and no link anywhere. *)
Definition env_dir_fs : gmap (list string) entry :=
  <[ ["srv"; "apps"; "admin"; ".env.example"] := EDir true true ]>
    (<[ ["srv"; "apps"; "admin"] := EDir true true ]>
       (<[ ["srv"; "apps"] := EDir true true ]> srv_fs)).

(** C6 as stated fails: the base directory exists, the file system holds
    directories only, so no directory can collide with something that is
    none, and [create_structure] of admin.py still fails, because a
    directory stands where the file [.env.example] is to be written. *)
Lemma file_entry_over_directory :
  let w := in_srv linux_host env_dir_fs in
  (Path_mkdir (base_dir admin) true true w).1 = inr tt
  ∧ forallb (λ kv, match kv.2 with EDir _ _ => true | _ => false end)
      (map_to_list env_dir_fs) = true
  ∧ (create_structure admin w).1 = inl IsADirectoryError.
Proof. by vm_compute. Qed.

(** In a directory that holds nothing, both scripts end without exception
    on a host that grants the permissions on what is created, and with
    [PermissionError] under [umask 0222]. *)
Example create_structure_outcome_examples :
  (create_structure admin (in_srv linux_host srv_fs)).1 = inr tt
  ∧ (create_structure web (in_srv linux_host srv_fs)).1 = inr tt
  ∧ (create_structure admin (in_srv umask_0222_host srv_fs)).1 = inl PermissionError
  ∧ fits umask_0222_host
      (<[ ["srv"; "apps"; "admin"] := EDir false true ]>
         (<[ ["srv"; "apps"] := EDir false true ]> srv_fs))
      (base_dir admin) ["srv"; "apps"; "admin"] (structure admin) = false.
Proof. by vm_compute. Qed.

End Posix.
